(** * make-sql-inserts: a shallow embedding of [tools/make-sql-inserts.py]

    The script loads a dictionary file into a global word list, shuffles it,
    and prints SQL insert statements whose text columns are filled with words
    drawn cyclically from that list.

    The embedding follows the script function by function.  The two globals
    ([words], [word_index]) and the state of Python's random generator are
    threaded explicitly; an uncaught Python exception is a [Raise] result;
    what the script prints is collected as the list of the arguments of its
    [print] statements. *)

From Stdlib Require Import ZArith List String Ascii Bool Lia Permutation.
From Stdlib Require Import DecimalString.
Import ListNotations.

#[local] Open Scope string_scope.
#[local] Open Scope list_scope.
#[local] Open Scope Z_scope.

(** ** Python values and built-ins used by the script *)

(** The exceptions the interpreter can raise in this script: [open] and file
    iteration ([IOError]), list subscripting ([IndexError]), [%] by zero
    ([ZeroDivisionError]) and [float] of a too large integer
    ([OverflowError]). *)
Inductive exn : Set :=
| IOError
| IndexError
| ZeroDivisionError
| OverflowError.

(** Result of running a piece of the script.  [OutOfFuel] belongs to the
    model only: the two [while] loops are unrolled a bounded number of times,
    and the theorems below show that the bound chosen is never hit. *)
Inductive res (A : Type) : Type :=
| Ret (a : A)
| Raise (e : exn)
| OutOfFuel.

Arguments Ret {A} a.
Arguments Raise {A} e.
Arguments OutOfFuel {A}.

Definition bind {A B : Type} (m : res A) (k : A -> res B) : res B :=
  match m with
  | Ret a => k a
  | Raise e => Raise e
  | OutOfFuel => OutOfFuel
  end.

Notation "'let*' x ':=' m 'in' k" := (bind m (fun x => k))
  (at level 10, x pattern, m at level 100, k at level 200).

(** [len(s)] as a Python integer. *)
Definition len (s : string) : Z := Z.of_nat (String.length s).

(** [len(l)] for a list. *)
Definition llen {A : Type} (l : list A) : Z := Z.of_nat (List.length l).

(** [l[i]]: a negative subscript counts from the end, a subscript outside
    [-len(l) .. len(l)-1] raises [IndexError]. *)
Definition getitem {A : Type} (l : list A) (i : Z) : res A :=
  let j := if i <? 0 then i + llen l else i in
  if (j <? 0) || (llen l <=? j) then Raise IndexError
  else match nth_error l (Z.to_nat j) with
       | Some x => Ret x
       | None => Raise IndexError
       end.

(** [a % b] on integers: floored, [ZeroDivisionError] when [b] is zero. *)
Definition py_mod (a b : Z) : res Z :=
  if b =? 0 then Raise ZeroDivisionError else Ret (a mod b).

(** [s[:n]]: the first [n] characters; a negative [n] drops the last [-n]. *)
Definition slice_to (s : string) (n : Z) : string :=
  let stop := if n <? 0 then Z.max 0 (len s + n) else Z.min n (len s) in
  substring 0 (Z.to_nat stop) s.

(** [' '.join(chosen)]. *)
Definition join (chosen : list string) : string := String.concat " " chosen.

(** ["%d" % i]. *)
Definition fmt_d (i : Z) : string := NilZero.string_of_int (Z.to_int i).

(** Characters kept by [re.sub("[^0-9a-zA-Z]", "", line)]. *)
Definition is_alnum (c : ascii) : bool :=
  let n := nat_of_ascii c in
  ((48 <=? n) && (n <=? 57) || (97 <=? n) && (n <=? 122)
   || (65 <=? n) && (n <=? 90))%nat.

Fixpoint filter_chars (p : ascii -> bool) (s : string) : string :=
  match s with
  | EmptyString => EmptyString
  | String c r => if p c then String c (filter_chars p r) else filter_chars p r
  end.

(** [re.sub("[^0-9a-zA-Z]", "", line)]. *)
Definition re_sub_non_alnum (line : string) : string := filter_chars is_alnum line.

(** Characters removed by [str.strip()]: space, tab, newline, vertical tab,
    form feed and carriage return. *)
Definition is_space (c : ascii) : bool :=
  let n := nat_of_ascii c in
  ((n =? 32) || (9 <=? n) && (n <=? 13))%nat.

Fixpoint lstrip (s : string) : string :=
  match s with
  | EmptyString => EmptyString
  | String c r => if is_space c then lstrip r else s
  end.

Fixpoint rstrip (s : string) : string :=
  match s with
  | EmptyString => EmptyString
  | String c r =>
      match rstrip r with
      | EmptyString => if is_space c then EmptyString else String c EmptyString
      | r' => String c r'
      end
  end.

Definition strip (s : string) : string := rstrip (lstrip s).

(** ** What the script takes from its environment

    [random.shuffle] is library code: it is a parameter, known only to
    rearrange the list it is given.  So are [float] and the ["%0.2f"]
    conversion, which are exact on the integers a double represents
    exactly ([float] fails with [OverflowError] on integers beyond the range
    of a double, and rounds in between). *)
Class Runtime : Type := {
  rng : Type;
  shuffle : list string -> rng -> list string * rng;
  shuffle_perm : forall l g, Permutation l (fst (shuffle l g));
  pyfloat : Type;
  float : Z -> option pyfloat;
  fmt_02f : pyfloat -> string;
  float_exact : forall i, Z.abs i <= 2 ^ 53 ->
    exists x, float i = Some x /\ fmt_02f x = (fmt_d i ++ ".00")%string
}.

(** The dictionary file as [open] and the [for line in dict_file] loop see
    it: it cannot be opened, or it yields its lines (each with its line
    terminator) to the end, or it yields some lines and then a read fails. *)
Inductive dict_file : Type :=
| OpenFails
| Readable (lines : list string)
| ReadFails (lines : list string).

(** ** Flags (lines 12-17) *)
Record flags : Type := {
  dict_filename : string;
  first_id_inclusive : Z;
  last_id_exclusive : Z;
  db_name : string;
  table_name : string;
  print_use_db_line : bool
}.

(** The values the script is shipped with. *)
Definition shipped_flags : flags := {|
  dict_filename := "/usr/share/dict/words";
  first_id_inclusive := 0;
  last_id_exclusive := 4;
  db_name := "sql-serv";
  table_name := "Medium_Size";
  print_use_db_line := true
|}.

Definition dq : string := String "034"%char EmptyString.
Definition nl : string := String "010"%char EmptyString.

(** One row, the tuple given to [RECORD_FORMAT %] (lines 94-95). *)
Record record (F : Type) : Type := {
  r_table : string;
  part : string;
  des : string;
  seller_id : Z;
  seller_name : string;
  price : F;
  notes : string;
  stock : Z
}.

Arguments r_table {F} r.
Arguments part {F} r.
Arguments des {F} r.
Arguments seller_id {F} r.
Arguments seller_name {F} r.
Arguments price {F} r.
Arguments notes {F} r.
Arguments stock {F} r.

Section Script.

Context {R : Runtime}.

(** [RECORD_FORMAT % (table_name, part, des, seller_id, seller_name, price,
    notes, stock)] (lines 21-24). *)
Definition RECORD_FORMAT (r : record pyfloat) : string :=
 (nl ++ "insert into " ++ r_table r
     ++ "(part, description, seller_id, seller_name, price, notes, stock" ++ nl
     ++ ") VALUES ( " ++ dq ++ part r ++ dq ++ ", " ++ dq ++ des r ++ dq ++ ", "
     ++ fmt_d (seller_id r) ++ ", " ++ dq ++ seller_name r ++ dq ++ ", "
     ++ fmt_02f (price r) ++ ", " ++ dq ++ notes r ++ dq ++ ", "
     ++ fmt_d (stock r) ++ " " ++ nl
     ++ ");")%string.

(** ** Data structure (lines 43-44) and the generator state *)
Record state : Type := {
  words : list string;
  word_index : Z;
  gen : rng
}.

Definition initial (g : rng) : state :=
  {| words := []; word_index := 0; gen := g |}.

(** Body of the [for line in dict_file] loop (lines 50-53), folded over the
    lines read. *)
Definition add_line (ws : list string) (line : string) : list string :=
  let line := re_sub_non_alnum line in
  let line := strip line in
  if 0 <? len line then ws ++ [line] else ws.

Definition load_lines (ws : list string) (lines : list string) : list string :=
  fold_left add_line lines ws.

(** [init_data_structure] (lines 47-55). *)
Definition init_data_structure (f : dict_file) (st : state) : res state :=
  match f with
  | OpenFails => Raise IOError
  | ReadFails _ => Raise IOError
  | Readable lines =>
      let ws := load_lines (words st) lines in
      let (ws', g') := shuffle ws (gen st) in
      Ret {| words := ws'; word_index := word_index st; gen := g' |}
  end.

(** [next_word] (lines 58-65). *)
Definition next_word (st : state) : res (string * state) :=
  let* word := getitem (words st) (word_index st) in
  let wi := word_index st + 1 in
  let* wi := py_mod wi (llen (words st)) in
  if 0 =? wi then
    let (ws', g') := shuffle (words st) (gen st) in
    Ret (word, {| words := ws'; word_index := wi; gen := g' |})
  else
    Ret (word, {| words := words st; word_index := wi; gen := gen st |}).

(** The [while used < max_len] loop of [make_vchar] (lines 71-74); it gives
    [chosen] and [used] as they are when the loop is left. *)
Fixpoint make_vchar_loop (fuel : nat) (max_len : Z) (chosen : list string)
    (used : Z) (st : state) : res (list string * Z * state) :=
  if used <? max_len then
    match fuel with
    | O => OutOfFuel
    | S fuel' =>
        let* (word, st') := next_word st in
        make_vchar_loop fuel' max_len (chosen ++ [word]) (used + len word + 1) st'
    end
  else Ret (chosen, used, st).

(** [make_vchar] (lines 68-76).  Each turn of the loop adds at least one to
    [used], so [max_len] turns are enough. *)
Definition make_vchar (max_len : Z) (st : state) : res (string * state) :=
  let* (chosen, _, st') := make_vchar_loop (Z.to_nat max_len) max_len [] 0 st in
  let vchar := join chosen in
  Ret (slice_to vchar max_len, st').

(** Lines 87-93: the columns of row [i]. *)
Definition make_record (fl : flags) (i : Z) (st : state)
  : res (record pyfloat * state) :=
  let* (part, st) := make_vchar 48 st in
  let* (des, st) := make_vchar 2024 st in
  let seller_id := i in
  let* (seller_name, st) := make_vchar 128 st in
  let* price := match float i with Some x => Ret x | None => Raise OverflowError end in
  let* (notes, st) := make_vchar 7168 st in
  let stock := (last_id_exclusive fl * 5) - i in
  Ret ({| r_table := table_name fl; part := part; des := des;
          seller_id := seller_id; seller_name := seller_name; price := price;
          notes := notes; stock := stock |}, st).

(** What a run leaves behind: the rows built, the arguments of the [print]
    statements executed, in order, and how the run ended. *)
Record outcome : Type := {
  rows : list (record pyfloat);
  printed : list string;
  ended : res unit
}.

(** The [while i < last_id_exclusive] loop of [main] (lines 86-97). *)
Fixpoint main_loop (fuel : nat) (fl : flags) (i : Z) (st : state)
    (rs : list (record pyfloat)) (out : list string) : outcome :=
  if i <? last_id_exclusive fl then
    match fuel with
    | O => {| rows := rs; printed := out; ended := OutOfFuel |}
    | S fuel' =>
        match make_record fl i st with
        | Ret (r, st') =>
            main_loop fuel' fl (i + 1) st' (rs ++ [r]) (out ++ [RECORD_FORMAT r])
        | Raise e => {| rows := rs; printed := out; ended := Raise e |}
        | OutOfFuel => {| rows := rs; printed := out; ended := OutOfFuel |}
        end
    end
  else {| rows := rs; printed := out; ended := Ret tt |}.

(** The line printed first when [print_use_db_line] is set (line 83). *)
Definition use_line (fl : flags) : list string :=
  if print_use_db_line fl then [("use " ++ db_name fl ++ ";")%string] else [].

(** [main] (lines 79-97), run on a file system [fs] and a generator state. *)
Definition main (fl : flags) (fs : string -> dict_file) (g : rng) : outcome :=
  match init_data_structure (fs (dict_filename fl)) (initial g) with
  | Ret st =>
      main_loop (Z.to_nat (last_id_exclusive fl - first_id_inclusive fl)) fl
        (first_id_inclusive fl) st [] (use_line fl)
  | Raise e => {| rows := []; printed := []; ended := Raise e |}
  | OutOfFuel => {| rows := []; printed := []; ended := OutOfFuel |}
  end.

End Script.

(** ** Notions used to state the properties *)

Section Notions.

Context {R : Runtime}.

(** The words of the pool are those loaded, in some order, and the cursor
    points into the pool. *)
Definition pool_inv (loaded : list string) (st : state) : Prop :=
  Permutation loaded (words st) /\ 0 <= word_index st < llen (words st).

(** [n] successive calls of [next_word]; the words returned, in order. *)
Fixpoint draw (n : nat) (st : state) : res (list string * state) :=
  match n with
  | O => Ret ([], st)
  | S n' =>
      let* (w, st1) := next_word st in
      let* (ws, st2) := draw n' st1 in
      Ret (w :: ws, st2)
  end.

(** The value [used] reaches after the words [chosen] were appended: each
    word counts for its length and one separator. *)
Definition used_after (chosen : list string) : Z :=
  fold_right (fun w acc => len w + 1 + acc) 0 chosen.

(** The integers [i, i+1, ..., i+n-1]. *)
Fixpoint ids_from (i : Z) (n : nat) : list Z :=
  match n with
  | O => []
  | S n' => i :: ids_from (i + 1) n'
  end.

End Notions.

(** ** A runtime to run the script on

    [random.shuffle] may return any arrangement; this one reverses the list
    (and counts the shuffles done in the generator state).  Its [float] is
    exact on every integer. *)
Definition rev_shuffle (l : list string) (g : nat) : list string * nat :=
  (rev l, S g).

#[local] Instance rev_runtime : Runtime := {|
  rng := nat;
  shuffle := rev_shuffle;
  shuffle_perm := fun l _ => Permutation_rev l;
  pyfloat := Z;
  float := fun i => Some i;
  fmt_02f := fun x => (fmt_d x ++ ".00")%string;
  float_exact := fun i _ => ex_intro _ i (conj eq_refl eq_refl)
|}.

(** A file system that holds the same dictionary under every name. *)
Definition only_file (f : dict_file) : string -> dict_file := fun _ => f.

(** A three-word dictionary, one word per line. *)
Definition abc_lines : list string :=
  [("alpha" ++ nl)%string; ("beta" ++ nl)%string; ("gamma" ++ nl)%string].

(** A dictionary source with only punctuation and blank lines. *)
Definition blank_lines : list string :=
  [("..." ++ nl)%string; nl; (" -- " ++ nl)%string].

(** The text every statement for table [Medium_Size] starts with. *)
Definition medium_size_header : string :=
  (nl ++ "insert into Medium_Size(part, description, seller_id, seller_name, price, notes, stock"
      ++ nl ++ ") VALUES ( ")%string.

(** The three words, as loaded, and the state [init_data_structure] leaves
    when the shuffle reverses them. *)
Definition abc_pool : list string := ["alpha"; "beta"; "gamma"].

Definition abc_state : state :=
  {| words := ["gamma"; "beta"; "alpha"]; word_index := 0; gen := 1%nat |}.

(** The shipped flags with an empty range of ids. *)
Definition empty_range_flags : flags := {|
  dict_filename := "/usr/share/dict/words";
  first_id_inclusive := 4;
  last_id_exclusive := 4;
  db_name := "sql-serv";
  table_name := "Medium_Size";
  print_use_db_line := true
|}.

(** The shipped flags with the range of ids turned around. *)
Definition reversed_range_flags : flags := {|
  dict_filename := "/usr/share/dict/words";
  first_id_inclusive := 5;
  last_id_exclusive := 4;
  db_name := "sql-serv";
  table_name := "Medium_Size";
  print_use_db_line := true
|}.

(** * Properties *)

(** Split a conjunction into its parts, and nothing else. *)
Ltac split_ands := repeat match goal with |- _ /\ _ => split end.

Section Builtins.

Lemma length_append (s1 s2 : string) :
  String.length (s1 ++ s2) = (String.length s1 + String.length s2)%nat.
Proof. induction s1 as [|c s1 IH]; simpl; [reflexivity | now rewrite IH]. Qed.

Lemma len_append (s1 s2 : string) : len (s1 ++ s2) = len s1 + len s2.
Proof. unfold len. rewrite length_append. lia. Qed.

Lemma len_nonneg (s : string) : 0 <= len s.
Proof. unfold len. lia. Qed.

Lemma length_substring_0 (n : nat) (s : string) :
  String.length (substring 0 n s) = Nat.min n (String.length s).
Proof.
  revert s. induction n as [|n IH]; intros [|c s]; simpl; try reflexivity.
  now rewrite IH.
Qed.

(** The length of [s[:n]] for a bound that is not negative. *)
Lemma len_slice_to (s : string) (n : Z) :
  0 <= n -> len (slice_to s n) = Z.min n (len s).
Proof.
  intros Hn. unfold slice_to, len.
  destruct (Z.ltb_spec n 0) as [H|_]; [lia|].
  rewrite length_substring_0. lia.
Qed.

(** The joined string is one character shorter than the count [used]. *)
Lemma len_join (chosen : list string) :
  chosen <> [] -> len (join chosen) = used_after chosen - 1.
Proof.
  induction chosen as [|w ws IH]; [congruence|]. intros _.
  destruct ws as [|w' ws].
  - cbv [join used_after String.concat fold_right]. lia.
  - change (join (w :: w' :: ws)) with (w ++ " " ++ join (w' :: ws))%string.
    rewrite !len_append, IH by discriminate.
    change (used_after (w :: w' :: ws)) with (len w + 1 + used_after (w' :: ws)).
    change (len " ") with 1. lia.
Qed.

Lemma used_after_app (l1 l2 : list string) :
  used_after (l1 ++ l2) = used_after l1 + used_after l2.
Proof. induction l1 as [|w l1 IH]; simpl; [reflexivity | rewrite IH; lia]. Qed.

Lemma used_after_nonneg (l : list string) : 0 <= used_after l.
Proof.
  induction l as [|w l IH]; simpl; [lia|]. pose proof (len_nonneg w). lia.
Qed.

(** A subscript inside the list gives the element there. *)
Lemma getitem_in_range {A : Type} (l : list A) (i : Z) :
  0 <= i < llen l ->
  exists x, nth_error l (Z.to_nat i) = Some x /\ getitem l i = Ret x.
Proof.
  intros Hi. unfold getitem, llen in *.
  destruct (Z.ltb_spec i 0) as [H|_]; [lia|].
  destruct (Z.ltb_spec i 0) as [H|_]; [lia|].
  destruct (Z.leb_spec (Z.of_nat (List.length l)) i) as [H|_]; [lia|]. simpl.
  destruct (nth_error l (Z.to_nat i)) as [x|] eqn:E.
  - now exists x.
  - apply nth_error_None in E. lia.
Qed.

(** Subscripting an empty list raises [IndexError], whatever the subscript. *)
Lemma getitem_nil {A : Type} (i : Z) : getitem (@nil A) i = Raise IndexError.
Proof.
  unfold getitem, llen. simpl List.length. change (Z.of_nat 0) with 0.
  destruct (Z.ltb_spec i 0) as [H|H].
  - rewrite Z.add_0_r. destruct (Z.ltb_spec i 0); [reflexivity | lia].
  - destruct (Z.ltb_spec i 0); [lia|].
    destruct (Z.leb_spec 0 i); [reflexivity | lia].
Qed.

End Builtins.

Section WordPool.

Context {R : Runtime}.

(** [skipn] at a position that holds an element starts with that element. *)
Lemma skipn_nth_error {A : Type} (l : list A) (i : nat) (x : A) :
  nth_error l i = Some x -> skipn i l = x :: skipn (S i) l.
Proof.
  revert l. induction i as [|i IH]; intros [|y l] H; try discriminate.
  - now inversion H.
  - simpl in H. apply IH in H. exact H.
Qed.

(** One call of [next_word] with the cursor inside the pool: it returns the
    word under the cursor; the cursor moves on, or the pool is shuffled and
    the cursor goes back to zero when the last word was returned. *)
Lemma next_word_in_range (st : state) :
  0 <= word_index st < llen (words st) ->
  exists w,
    nth_error (words st) (Z.to_nat (word_index st)) = Some w /\
    next_word st =
      Ret (w, if word_index st + 1 =? llen (words st)
              then {| words := fst (shuffle (words st) (gen st));
                      word_index := 0;
                      gen := snd (shuffle (words st) (gen st)) |}
              else {| words := words st;
                      word_index := word_index st + 1;
                      gen := gen st |}).
Proof.
  intros Hi. destruct (getitem_in_range (words st) (word_index st) Hi)
    as (w & Hnth & Hget).
  exists w. split; [exact Hnth|].
  unfold next_word. rewrite Hget. cbn [bind]. unfold py_mod.
  destruct (Z.eqb_spec (llen (words st)) 0) as [E|_]; [lia|]. cbn [bind].
  destruct (Z.eqb_spec (word_index st + 1) (llen (words st))) as [E|E].
  - rewrite E, Z_mod_same_full. cbn [Z.eqb].
    destruct (shuffle (words st) (gen st)); reflexivity.
  - rewrite Z.mod_small by lia.
    destruct (Z.eqb_spec 0 (word_index st + 1)) as [E0|_]; [lia|]. reflexivity.
Qed.

(** With an empty pool [next_word] fails on its first line. *)
Lemma next_word_empty (st : state) :
  words st = [] -> next_word st = Raise IndexError.
Proof. intros E. unfold next_word. rewrite E, getitem_nil. reflexivity. Qed.

Lemma next_word_inv (loaded : list string) (st : state) :
  pool_inv loaded st ->
  exists w st', next_word st = Ret (w, st') /\ pool_inv loaded st' /\ In w loaded.
Proof.
  intros [Hp Hi]. destruct (next_word_in_range st Hi) as (w & Hnth & Hnw).
  eexists _, _. split; [exact Hnw|]. split.
  - destruct (Z.eqb_spec (word_index st + 1) (llen (words st))) as [E|E];
      unfold pool_inv; cbn [words word_index].
    + pose proof (shuffle_perm (words st) (gen st)) as Hs. split.
      * now transitivity (words st).
      * unfold llen in *. rewrite <- (Permutation_length Hs). lia.
    + split; [exact Hp | lia].
  - apply Permutation_in with (l := words st); [now symmetry|].
    eapply nth_error_In; exact Hnth.
Qed.

(** Drawing while the cursor stays inside the pool walks along the pool and
    never shuffles it. *)
Lemma draw_within (n : nat) : forall st,
  0 <= word_index st -> word_index st + Z.of_nat n < llen (words st) ->
  draw n st =
    Ret (firstn n (skipn (Z.to_nat (word_index st)) (words st)),
         {| words := words st; word_index := word_index st + Z.of_nat n;
            gen := gen st |}).
Proof.
  induction n as [|n IH]; intros st H0 Hn.
  - cbn [draw firstn]. rewrite Z.add_0_r. destruct st; reflexivity.
  - cbn [draw]. destruct (next_word_in_range st) as (w & Hnth & ->); [lia|].
    destruct (Z.eqb_spec (word_index st + 1) (llen (words st))) as [E|_]; [lia|].
    cbn [bind]. rewrite IH; cbn [words word_index gen]; try lia.
    cbn [bind]. rewrite (skipn_nth_error _ _ _ Hnth). cbn [firstn].
    replace (Z.to_nat (word_index st + 1)) with (S (Z.to_nat (word_index st)))
      by lia.
    replace (word_index st + 1 + Z.of_nat n) with (word_index st + Z.of_nat (S n))
      by lia.
    reflexivity.
Qed.

(** Drawing up to the end of the pool returns the rest of the pool; the
    last call shuffles and resets the cursor. *)
Lemma draw_to_end (n : nat) : forall st,
  0 <= word_index st -> word_index st + Z.of_nat (S n) = llen (words st) ->
  draw (S n) st =
    Ret (skipn (Z.to_nat (word_index st)) (words st),
         {| words := fst (shuffle (words st) (gen st)); word_index := 0;
            gen := snd (shuffle (words st) (gen st)) |}).
Proof.
  induction n as [|n IH]; intros st H0 Hn.
  - cbn [draw]. destruct (next_word_in_range st) as (w & Hnth & ->); [lia|].
    destruct (Z.eqb_spec (word_index st + 1) (llen (words st))) as [_|E]; [|lia].
    cbn [bind]. rewrite (skipn_nth_error _ _ _ Hnth).
    rewrite skipn_all2 by (unfold llen in Hn; lia). reflexivity.
  - change (draw (S (S n)) st) with
      (let* (w, st1) := next_word st in
       let* (ws, st2) := draw (S n) st1 in Ret (w :: ws, st2)).
    destruct (next_word_in_range st) as (w & Hnth & ->); [lia|].
    destruct (Z.eqb_spec (word_index st + 1) (llen (words st))) as [E|_]; [lia|].
    cbn [bind]. rewrite IH; cbn [words word_index gen]; try lia.
    cbn [bind]. rewrite (skipn_nth_error _ _ _ Hnth).
    replace (Z.to_nat (word_index st + 1)) with (S (Z.to_nat (word_index st)))
      by lia.
    reflexivity.
Qed.

Lemma draw_snoc (n : nat) : forall st ws st1 w st2,
  draw n st = Ret (ws, st1) -> next_word st1 = Ret (w, st2) ->
  draw (S n) st = Ret (ws ++ [w], st2).
Proof.
  induction n as [|n IH]; intros st ws st1 w st2 Hd Hw.
  - cbn [draw] in Hd. inversion Hd; subst. cbn [draw]. rewrite Hw. reflexivity.
  - change (draw (S (S n)) st) with
      (let* (w, st1) := next_word st in
       let* (ws, st2) := draw (S n) st1 in Ret (w :: ws, st2)).
    cbn [draw] in Hd. destruct (next_word st) as [[w0 st0]| |]; try discriminate.
    cbn [bind] in Hd |- *.
    destruct (draw n st0) as [[ws0 st0']| |] eqn:E; try discriminate.
    cbn [bind] in Hd. inversion Hd; subst.
    rewrite (IH _ _ _ _ _ E Hw). reflexivity.
Qed.

(** C4. Starting a cycle (cursor at zero) on a non-empty pool [ws] of size
    [k], the first [k] calls of [next_word] return the elements of the pool,
    each one once: the list returned is [ws] itself, a rearrangement of the
    words loaded, without repeats when the loaded words have none.  No
    shuffle happens before the [k]-th call; the [k]-th call shuffles the
    pool and resets the cursor, so that call [k+1] returns the first word of
    the freshly shuffled pool. *)
Theorem next_word_full_cycle (loaded ws : list string) (g : rng) :
  ws <> [] -> Permutation loaded ws ->
  let k := List.length ws in
  let st0 := {| words := ws; word_index := 0; gen := g |} in
  let st1 := {| words := fst (shuffle ws g); word_index := 0;
                gen := snd (shuffle ws g) |} in
  (exists drawn, draw k st0 = Ret (drawn, st1) /\ drawn = ws
     /\ Permutation loaded drawn /\ (NoDup loaded -> NoDup drawn)) /\
  (forall n, (n < k)%nat ->
     draw n st0 = Ret (firstn n ws, {| words := ws; word_index := Z.of_nat n;
                                      gen := g |})) /\
  (exists w st2, draw (S k) st0 = Ret (ws ++ [w], st2) /\
     nth_error (fst (shuffle ws g)) 0 = Some w /\ pool_inv loaded st1).
Proof.
  intros Hne Hp k st0 st1.
  assert (Hk : (0 < k)%nat) by (subst k; destruct ws; [congruence | simpl; lia]).
  assert (Hfull : draw k st0 = Ret (ws, st1)).
  { destruct k as [|k'] eqn:Ek; [lia|].
    rewrite draw_to_end; subst st0; cbn [words word_index gen]; try lia.
    - reflexivity.
    - unfold llen. fold k. lia. }
  assert (Hinv : pool_inv loaded st1).
  { pose proof (shuffle_perm ws g) as Hs. split; subst st1; cbn [words word_index].
    - now transitivity ws.
    - unfold llen. rewrite <- (Permutation_length Hs). fold k. lia. }
  split; [|split].
  - exists ws. repeat split; try assumption.
    intros Hnd. eapply Permutation_NoDup; eassumption.
  - intros n Hn. rewrite draw_within; subst st0; cbn [words word_index gen].
    + reflexivity.
    + lia.
    + unfold llen. fold k. lia.
  - destruct (next_word_in_range st1 (proj2 Hinv)) as (w & Hnth & Hnw).
    eexists w, _. split; [|split; [exact Hnth | exact Hinv]].
    eapply draw_snoc; [exact Hfull | exact Hnw].
Qed.

End WordPool.

Section BoundedText.

Context {R : Runtime}.

(** The loop of [make_vchar] on a non-empty pool, with fuel for every turn
    it can take: it ends, having appended the words [more]; [used] has grown
    by their count and has reached [max_len], which it had not before the
    last word was appended. *)
Lemma make_vchar_loop_runs (loaded : list string) (max_len : Z) (fuel : nat) :
  forall chosen used st,
  pool_inv loaded st -> (Z.to_nat (max_len - used) <= fuel)%nat ->
  exists more st',
    make_vchar_loop fuel max_len chosen used st
      = Ret (chosen ++ more, used + used_after more, st') /\
    pool_inv loaded st' /\
    max_len <= used + used_after more /\
    (used < max_len -> more <> []) /\
    (max_len <= used -> more = [] /\ st' = st) /\
    (forall pre w, more = pre ++ [w] -> used + used_after pre < max_len) /\
    Forall (fun w => In w loaded) more.
Proof.
  induction fuel as [|fuel IH]; intros chosen used st Hinv Hfuel.
  - exists [], st. cbn [make_vchar_loop].
    destruct (Z.ltb_spec used max_len) as [H|H]; [lia|].
    rewrite app_nil_r. cbn [used_after fold_right]. rewrite Z.add_0_r.
    split_ands; try reflexivity; try assumption; try lia; auto.
    intros [|? ?] ? E; discriminate E.
  - cbn [make_vchar_loop].
    destruct (Z.ltb_spec used max_len) as [H|H].
    + destruct (next_word_inv loaded st Hinv) as (w & st1 & -> & Hinv1 & Hin).
      cbn [bind]. pose proof (len_nonneg w) as Hw.
      destruct (IH (chosen ++ [w]) (used + len w + 1) st1 Hinv1)
        as (more & st' & -> & Hinv' & Hge & _ & _ & Hlast & Hall); [lia|].
      exists (w :: more), st'.
      rewrite <- app_assoc. cbn [app used_after fold_right].
      fold (used_after more).
      replace (used + len w + 1 + used_after more)
        with (used + (len w + 1 + used_after more)) by lia.
      split_ands; try reflexivity; try assumption; try lia; try discriminate.
      * intros [|w0 pre] w' E.
        -- cbn [used_after fold_right]. lia.
        -- cbn [app] in E. inversion E; subst.
           specialize (Hlast pre w' eq_refl).
           cbn [used_after fold_right]. fold (used_after pre). lia.
      * constructor; assumption.
    + exists [], st. rewrite app_nil_r. cbn [used_after fold_right].
      rewrite Z.add_0_r.
      split_ands; try reflexivity; try assumption; try lia; auto.
      intros [|? ?] ? E; discriminate.
Qed.

(** [make_vchar] on a non-empty pool with a bound of at least one: the loop
    ends within the fuel [make_vchar] gives it, with some words [chosen] and
    [used = used_after chosen >= max_len]; the result is the joined words cut
    at [max_len], and its length is the smaller of [max_len] and [used - 1]. *)
Lemma make_vchar_runs (loaded : list string) (max_len : Z) (st : state) :
  pool_inv loaded st -> 1 <= max_len ->
  exists chosen st',
    make_vchar_loop (Z.to_nat max_len) max_len [] 0 st
      = Ret (chosen, used_after chosen, st') /\
    make_vchar max_len st = Ret (slice_to (join chosen) max_len, st') /\
    pool_inv loaded st' /\
    chosen <> [] /\
    max_len <= used_after chosen /\
    (forall pre w, chosen = pre ++ [w] -> used_after pre < max_len) /\
    Forall (fun w => In w loaded) chosen /\
    len (slice_to (join chosen) max_len) = Z.min max_len (used_after chosen - 1).
Proof.
  intros Hinv Hmax.
  destruct (make_vchar_loop_runs loaded max_len (Z.to_nat max_len) [] 0 st Hinv)
    as (chosen & st' & Hloop & Hinv' & Hge & Hne & _ & Hlast & Hall).
  { rewrite Z.sub_0_r. lia. }
  cbn [app] in Hloop. rewrite Z.add_0_l in Hloop, Hge.
  exists chosen, st'. unfold make_vchar. rewrite Hloop. cbn [bind].
  split_ands; try reflexivity; try assumption.
  - apply Hne. lia.
  - rewrite len_slice_to by lia. rewrite len_join by (apply Hne; lia). reflexivity.
Qed.

(** For any bound [make_vchar] returns on a non-empty pool and keeps the
    invariant of the pool. *)
Lemma make_vchar_inv (loaded : list string) (max_len : Z) (st : state) :
  pool_inv loaded st ->
  exists s st', make_vchar max_len st = Ret (s, st') /\ pool_inv loaded st'.
Proof.
  intros Hinv.
  destruct (make_vchar_loop_runs loaded max_len (Z.to_nat max_len) [] 0 st Hinv)
    as (chosen & st' & Hloop & Hinv' & _).
  { rewrite Z.sub_0_r. lia. }
  unfold make_vchar. rewrite Hloop. cbn [bind]. eexists _, _. split; [reflexivity|].
  exact Hinv'.
Qed.

(** With an empty pool [make_vchar] fails in its first [next_word], for
    every bound of at least one. *)
Lemma make_vchar_empty (max_len : Z) (st : state) :
  words st = [] -> 1 <= max_len -> make_vchar max_len st = Raise IndexError.
Proof.
  intros E Hmax. unfold make_vchar.
  destruct (Z.to_nat max_len) as [|fuel] eqn:Ef; [lia|].
  cbn [make_vchar_loop]. destruct (Z.ltb_spec 0 max_len) as [_|H]; [|lia].
  rewrite (next_word_empty st E). reflexivity.
Qed.

(** The loop is left at once when [used] has reached the bound. *)
Lemma make_vchar_loop_exit (fuel : nat) (max_len : Z) (chosen : list string)
    (used : Z) (st : state) :
  max_len <= used ->
  make_vchar_loop fuel max_len chosen used st = Ret (chosen, used, st).
Proof.
  intros H. destruct fuel; cbn [make_vchar_loop];
    destruct (Z.ltb_spec used max_len); (lia || reflexivity).
Qed.

Lemma substring_all (s : string) : substring 0 (String.length s) s = s.
Proof. induction s as [|c s IH]; simpl; [reflexivity | now rewrite IH]. Qed.

(** However large the pool: when the bound is one more than the length of
    the word under the cursor, that word alone is chosen and returned whole,
    one character short of the bound. *)
Lemma make_vchar_first_word (loaded : list string) (st : state) :
  pool_inv loaded st ->
  exists w st',
    nth_error (words st) (Z.to_nat (word_index st)) = Some w /\
    make_vchar (len w + 1) st = Ret (w, st') /\
    len w = (len w + 1) - 1.
Proof.
  intros [_ Hi]. destruct (next_word_in_range st Hi) as (w & Hnth & Hnw).
  pose proof (len_nonneg w) as Hw.
  eexists w, _. split; [exact Hnth|]. split; [|lia].
  unfold make_vchar.
  destruct (Z.to_nat (len w + 1)) as [|fuel] eqn:Ef; [lia|].
  cbn [make_vchar_loop]. destruct (Z.ltb_spec 0 (len w + 1)) as [_|H]; [|lia].
  rewrite Hnw. cbn [bind app].
  rewrite make_vchar_loop_exit by lia. cbn [bind]. f_equal. f_equal.
  unfold slice_to, join. cbn [String.concat].
  destruct (Z.ltb_spec (len w + 1) 0); [lia|].
  replace (Z.to_nat (Z.min (len w + 1) (len w))) with (String.length w)
    by (unfold len; lia).
  apply substring_all.
Qed.

(** C9. On a non-empty pool and for [max_len >= 1], [make_vchar] returns a
    string of length [max_len] or [max_len - 1]; the length is [max_len - 1]
    exactly when the count [used] equals [max_len] when the loop is left.
    (This holds whether or not the words of the pool are empty strings.) *)
Theorem make_vchar_length (loaded : list string) (max_len : Z) (st : state) :
  pool_inv loaded st -> 1 <= max_len ->
  exists chosen used st' vchar,
    make_vchar_loop (Z.to_nat max_len) max_len [] 0 st = Ret (chosen, used, st') /\
    used = used_after chosen /\
    make_vchar max_len st = Ret (vchar, st') /\
    (len vchar = max_len \/ len vchar = max_len - 1) /\
    (len vchar = max_len - 1 <-> used = max_len).
Proof.
  intros Hinv Hmax.
  destruct (make_vchar_runs loaded max_len st Hinv Hmax)
    as (chosen & st' & Hloop & Hmk & _ & _ & Hge & _ & _ & Hlen).
  exists chosen, (used_after chosen), st', (slice_to (join chosen) max_len).
  split_ands; try assumption; lia.
Qed.

(** C1 (amended). On a non-empty pool and for a bound [L >= 1],
    [make_vchar] returns the first [L] characters of the chosen words joined
    by single spaces; the words are drawn from the pool until the count of
    their lengths plus one separator each reaches [L].  The length returned
    is the smaller of [L] and the length of the joined string, and it is
    [L - 1] or [L], whatever the size of the pool. *)
Theorem make_vchar_bounded (loaded : list string) (L : Z) (st : state) :
  pool_inv loaded st -> 1 <= L ->
  exists chosen st',
    make_vchar L st = Ret (slice_to (join chosen) L, st') /\
    Forall (fun w => In w loaded) chosen /\
    L <= used_after chosen /\
    (forall pre w, chosen = pre ++ [w] -> used_after pre < L) /\
    len (slice_to (join chosen) L) = Z.min L (len (join chosen)) /\
    L - 1 <= len (slice_to (join chosen) L) <= L.
Proof.
  intros Hinv HL.
  destruct (make_vchar_runs loaded L st Hinv HL)
    as (chosen & st' & _ & Hmk & _ & Hne & Hge & Hlast & Hall & Hlen).
  exists chosen, st'. rewrite (len_join chosen Hne).
  split_ands; try assumption; lia.
Qed.

End BoundedText.

Section Generation.

Context {R : Runtime}.

Lemma shuffle_nil (g : rng) : fst (shuffle [] g) = [].
Proof. apply Permutation_nil, shuffle_perm. Qed.

Lemma float_small (i : Z) : Z.abs i <= 2 ^ 53 -> float i <> None.
Proof. intros H. destruct (float_exact i H) as (x & -> & _). discriminate. Qed.

(** A line without letters and digits adds nothing to the pool. *)
Lemma add_line_no_alnum (ws : list string) (line : string) :
  re_sub_non_alnum line = EmptyString -> add_line ws line = ws.
Proof. intros E. unfold add_line. rewrite E. reflexivity. Qed.

Lemma load_lines_no_alnum (lines : list string) : forall ws,
  Forall (fun line => re_sub_non_alnum line = EmptyString) lines ->
  load_lines ws lines = ws.
Proof.
  unfold load_lines. induction lines as [|l lines IH]; intros ws H.
  - reflexivity.
  - inversion H; subst. cbn [fold_left]. rewrite add_line_no_alnum by assumption.
    now apply IH.
Qed.

(** [init_data_structure] on a file that reads to its end. *)
Lemma init_readable (lines : list string) (g : rng) :
  init_data_structure (Readable lines) (initial g) =
    Ret {| words := fst (shuffle (load_lines [] lines) g); word_index := 0;
           gen := snd (shuffle (load_lines [] lines) g) |}.
Proof.
  unfold init_data_structure, initial. cbn [words word_index gen].
  destruct (shuffle (load_lines [] lines) g); reflexivity.
Qed.

(** After loading at least one word the invariant of the pool holds. *)
Lemma init_establishes_inv (lines : list string) (g : rng) :
  load_lines [] lines <> [] ->
  pool_inv (load_lines [] lines)
    {| words := fst (shuffle (load_lines [] lines) g); word_index := 0;
       gen := snd (shuffle (load_lines [] lines) g) |}.
Proof.
  intros Hne. pose proof (shuffle_perm (load_lines [] lines) g) as Hs.
  split; cbn [words word_index]; [exact Hs|].
  unfold llen. rewrite <- (Permutation_length Hs).
  destruct (load_lines [] lines); [congruence | simpl; lia].
Qed.

(** The columns of a row that was built, whatever the state it was built in. *)
Lemma make_record_fields (fl : flags) (i : Z) (st st' : state)
    (r : record pyfloat) :
  make_record fl i st = Ret (r, st') ->
  r_table r = table_name fl /\ seller_id r = i /\
  stock r = last_id_exclusive fl * 5 - i /\ float i = Some (price r).
Proof.
  unfold make_record.
  destruct (make_vchar 48 st) as [[p s1]| |]; try discriminate. cbn [bind].
  destruct (make_vchar 2024 s1) as [[d s2]| |]; try discriminate. cbn [bind].
  destruct (make_vchar 128 s2) as [[n s3]| |]; try discriminate. cbn [bind].
  destruct (float i) as [x|]; try discriminate. cbn [bind].
  destruct (make_vchar 7168 s3) as [[t s4]| |]; try discriminate. cbn [bind].
  intros H. inversion H; subst. cbn. auto.
Qed.

(** A row on a non-empty pool, at an index [float] accepts: the row is built,
    its text columns fill their width or miss it by one character. *)
Lemma make_record_runs (loaded : list string) (fl : flags) (i : Z) (st : state)
    (x : pyfloat) :
  pool_inv loaded st -> float i = Some x ->
  exists p d s n st',
    make_record fl i st =
      Ret ({| r_table := table_name fl; part := p; des := d; seller_id := i;
              seller_name := s; price := x; notes := n;
              stock := last_id_exclusive fl * 5 - i |}, st') /\
    pool_inv loaded st' /\
    47 <= len p <= 48 /\ 2023 <= len d <= 2024 /\
    127 <= len s <= 128 /\ 7167 <= len n <= 7168.
Proof.
  intros Hinv Hx.
  destruct (make_vchar_runs loaded 48 st Hinv)
    as (c1 & s1 & _ & Hm1 & Hinv1 & _ & Hge1 & _ & _ & Hl1); [lia|].
  destruct (make_vchar_runs loaded 2024 s1 Hinv1)
    as (c2 & s2 & _ & Hm2 & Hinv2 & _ & Hge2 & _ & _ & Hl2); [lia|].
  destruct (make_vchar_runs loaded 128 s2 Hinv2)
    as (c3 & s3 & _ & Hm3 & Hinv3 & _ & Hge3 & _ & _ & Hl3); [lia|].
  destruct (make_vchar_runs loaded 7168 s3 Hinv3)
    as (c4 & s4 & _ & Hm4 & Hinv4 & _ & Hge4 & _ & _ & Hl4); [lia|].
  eexists _, _, _, _, s4. unfold make_record.
  rewrite Hm1. cbn [bind]. rewrite Hm2. cbn [bind]. rewrite Hm3. cbn [bind].
  rewrite Hx. cbn [bind]. rewrite Hm4. cbn [bind].
  split_ands; try reflexivity; try assumption; lia.
Qed.

(** A row at an index [float] rejects: the run stops with [OverflowError]. *)
Lemma make_record_overflow (loaded : list string) (fl : flags) (i : Z)
    (st : state) :
  pool_inv loaded st -> float i = None ->
  make_record fl i st = Raise OverflowError.
Proof.
  intros Hinv Hx.
  destruct (make_vchar_inv loaded 48 st Hinv) as (p & s1 & Hm1 & Hinv1).
  destruct (make_vchar_inv loaded 2024 s1 Hinv1) as (d & s2 & Hm2 & Hinv2).
  destruct (make_vchar_inv loaded 128 s2 Hinv2) as (n & s3 & Hm3 & Hinv3).
  unfold make_record.
  rewrite Hm1. cbn [bind]. rewrite Hm2. cbn [bind]. rewrite Hm3. cbn [bind].
  rewrite Hx. reflexivity.
Qed.

(** A row on an empty pool fails in the first [make_vchar]. *)
Lemma make_record_empty (fl : flags) (i : Z) (st : state) :
  words st = [] -> make_record fl i st = Raise IndexError.
Proof.
  intros E. unfold make_record. rewrite make_vchar_empty by (assumption || lia).
  reflexivity.
Qed.

(** The loop of [main] once the last index is passed. *)
Lemma main_loop_done (fuel : nat) (fl : flags) (i : Z) (st : state)
    (rs : list (record pyfloat)) (out : list string) :
  last_id_exclusive fl <= i ->
  main_loop fuel fl i st rs out = {| rows := rs; printed := out; ended := Ret tt |}.
Proof.
  intros H. destruct fuel; cbn [main_loop];
    destruct (Z.ltb_spec i (last_id_exclusive fl)); (lia || reflexivity).
Qed.

(** The loop of [main] on an empty pool, with a row still to build. *)
Lemma main_loop_empty (fuel : nat) (fl : flags) (i : Z) (st : state)
    (rs : list (record pyfloat)) (out : list string) :
  words st = [] -> i < last_id_exclusive fl -> (0 < fuel)%nat ->
  main_loop fuel fl i st rs out =
    {| rows := rs; printed := out; ended := Raise IndexError |}.
Proof.
  intros E H Hf. destruct fuel as [|fuel]; [lia|]. cbn [main_loop].
  destruct (Z.ltb_spec i (last_id_exclusive fl)); [|lia].
  rewrite make_record_empty by assumption. reflexivity.
Qed.

(** However the loop of [main] ends, what it has printed is the text of the
    rows it has built; their indices go up by one from [i], and each of them
    carries the table name and the stock computed from its index. *)
Lemma main_loop_shape (fl : flags) (fuel : nat) : forall i st rs out,
  exists new,
    rows (main_loop fuel fl i st rs out) = rs ++ new /\
    printed (main_loop fuel fl i st rs out) = out ++ map RECORD_FORMAT new /\
    map seller_id new = ids_from i (List.length new) /\
    Forall (fun r => r_table r = table_name fl /\
                     stock r = last_id_exclusive fl * 5 - seller_id r /\
                     float (seller_id r) = Some (price r)) new.
Proof.
  induction fuel as [|fuel IH]; intros i st rs out; cbn [main_loop].
  - exists []. destruct (i <? last_id_exclusive fl); cbn [rows printed map];
      rewrite !app_nil_r; auto.
  - destruct (i <? last_id_exclusive fl).
    + destruct (make_record fl i st) as [[r st']| |] eqn:E.
      * destruct (IH (i + 1) st' (rs ++ [r]) (out ++ [RECORD_FORMAT r]))
          as (new & -> & -> & Hids & Hall).
        destruct (make_record_fields _ _ _ _ _ E) as (Ht & Hi & Hs & Hf).
        exists (r :: new). rewrite <- !app_assoc. cbn [app map length ids_from].
        split_ands; try reflexivity.
        -- rewrite Hi, Hids. reflexivity.
        -- constructor; [|exact Hall]. rewrite Hi. auto.
      * exists []. cbn [rows printed map]. rewrite !app_nil_r. auto.
      * exists []. cbn [rows printed map]. rewrite !app_nil_r. auto.
    + exists []. cbn [rows printed map]. rewrite !app_nil_r. auto.
Qed.

(** The loop of [main] on a non-empty pool, over indices [float] accepts,
    with fuel for every index left: it ends normally, having built and
    printed one row per index from [i] up to the last, in that order. *)
Lemma main_loop_runs (loaded : list string) (fl : flags) (fuel : nat) :
  forall i st rs out,
  pool_inv loaded st ->
  (forall j, i <= j < last_id_exclusive fl -> float j <> None) ->
  (Z.to_nat (last_id_exclusive fl - i) <= fuel)%nat ->
  exists new,
    main_loop fuel fl i st rs out =
      {| rows := rs ++ new; printed := out ++ map RECORD_FORMAT new;
         ended := Ret tt |} /\
    map seller_id new = ids_from i (Z.to_nat (last_id_exclusive fl - i)).
Proof.
  induction fuel as [|fuel IH]; intros i st rs out Hinv Hfl Hfuel.
  - exists []. rewrite main_loop_done by lia. cbn [map]. rewrite !app_nil_r.
    replace (Z.to_nat (last_id_exclusive fl - i)) with O by lia. auto.
  - destruct (Z.lt_ge_cases i (last_id_exclusive fl)) as [Hlt|Hge].
    + cbn [main_loop]. destruct (Z.ltb_spec i (last_id_exclusive fl)); [|lia].
      destruct (float i) as [x|] eqn:Ex; [|exfalso; apply (Hfl i); [lia|exact Ex]].
      destruct (make_record_runs loaded fl i st x Hinv Ex)
        as (p & d & s & n & st' & -> & Hinv' & _).
      match goal with |- context [RECORD_FORMAT ?r] => set (row := r) end.
      destruct (IH (i + 1) st' (rs ++ [row]) (out ++ [RECORD_FORMAT row]) Hinv')
        as (new & -> & Hids); [intros j Hj; apply Hfl; lia | lia |].
      exists (row :: new). rewrite <- !app_assoc. cbn [app map].
      split; [reflexivity|].
      replace (Z.to_nat (last_id_exclusive fl - i))
        with (S (Z.to_nat (last_id_exclusive fl - (i + 1)))) by lia.
      cbn [ids_from]. rewrite Hids. reflexivity.
    + exists []. rewrite main_loop_done by lia. cbn [map]. rewrite !app_nil_r.
      replace (Z.to_nat (last_id_exclusive fl - i)) with O by lia. auto.
Qed.

Lemma length_ids_from (n : nat) : forall i, List.length (ids_from i n) = n.
Proof. induction n as [|n IH]; intros i; simpl; [reflexivity | now rewrite IH]. Qed.

(** The indices are listed in ascending order, without gaps. *)
Lemma nth_ids_from (n : nat) : forall i k,
  (k < n)%nat -> nth_error (ids_from i n) k = Some (i + Z.of_nat k).
Proof.
  induction n as [|n IH]; intros i k Hk; [lia|].
  destruct k as [|k]; cbn [ids_from nth_error].
  - f_equal. lia.
  - rewrite IH by lia. f_equal. lia.
Qed.

Lemma main_readable (fl : flags) (fs : string -> dict_file) (g : rng)
    (lines : list string) :
  fs (dict_filename fl) = Readable lines ->
  main fl fs g =
    main_loop (Z.to_nat (last_id_exclusive fl - first_id_inclusive fl)) fl
      (first_id_inclusive fl)
      {| words := fst (shuffle (load_lines [] lines) g); word_index := 0;
         gen := snd (shuffle (load_lines [] lines) g) |}
      [] (use_line fl).
Proof. intros E. unfold main. rewrite E, init_readable. reflexivity. Qed.

End Generation.

Section Termination.

Context {R : Runtime}.

(** The fuel given to the two loops is never used up: no part of the script
    ends in [OutOfFuel], on any input.  So every run of the model is a run
    of the script, which returns or raises. *)

Lemma getitem_fuel {A : Type} (l : list A) (i : Z) : getitem l i <> OutOfFuel.
Proof.
  unfold getitem. destruct (_ || _); [discriminate|].
  destruct (nth_error _ _); discriminate.
Qed.

Lemma next_word_fuel (st : state) : next_word st <> OutOfFuel.
Proof.
  unfold next_word.
  destruct (getitem (words st) (word_index st)) as [w| |] eqn:E; cbn [bind];
    [|discriminate|now apply getitem_fuel in E].
  unfold py_mod. destruct (_ =? 0); cbn [bind]; [discriminate|].
  destruct (0 =? _); [destruct (shuffle _ _)|]; discriminate.
Qed.

Lemma make_vchar_loop_fuel (max_len : Z) (fuel : nat) :
  forall chosen used st,
  (Z.to_nat (max_len - used) <= fuel)%nat ->
  make_vchar_loop fuel max_len chosen used st <> OutOfFuel.
Proof.
  induction fuel as [|fuel IH]; intros chosen used st Hfuel; cbn [make_vchar_loop];
    destruct (Z.ltb_spec used max_len) as [H|H]; try discriminate; try lia.
  destruct (next_word st) as [[w st']| |] eqn:E; cbn [bind];
    [|discriminate|now apply next_word_fuel in E].
  apply IH. pose proof (len_nonneg w). lia.
Qed.

Lemma make_vchar_fuel (max_len : Z) (st : state) :
  make_vchar max_len st <> OutOfFuel.
Proof.
  unfold make_vchar.
  destruct (make_vchar_loop (Z.to_nat max_len) max_len [] 0 st)
    as [[[chosen used] st']| |] eqn:E; cbn [bind]; try discriminate.
  exfalso. revert E. apply make_vchar_loop_fuel. lia.
Qed.

Lemma make_record_fuel (fl : flags) (i : Z) (st : state) :
  make_record fl i st <> OutOfFuel.
Proof.
  unfold make_record.
  destruct (make_vchar 48 st) as [[p s1]| |] eqn:E1; cbn [bind];
    [|discriminate|now apply make_vchar_fuel in E1].
  destruct (make_vchar 2024 s1) as [[d s2]| |] eqn:E2; cbn [bind];
    [|discriminate|now apply make_vchar_fuel in E2].
  destruct (make_vchar 128 s2) as [[n s3]| |] eqn:E3; cbn [bind];
    [|discriminate|now apply make_vchar_fuel in E3].
  destruct (float i); cbn [bind]; [|discriminate].
  destruct (make_vchar 7168 s3) as [[t s4]| |] eqn:E4; cbn [bind];
    [|discriminate|now apply make_vchar_fuel in E4].
  discriminate.
Qed.

Lemma main_loop_fuel (fl : flags) (fuel : nat) : forall i st rs out,
  (Z.to_nat (last_id_exclusive fl - i) <= fuel)%nat ->
  ended (main_loop fuel fl i st rs out) <> OutOfFuel.
Proof.
  induction fuel as [|fuel IH]; intros i st rs out Hfuel; cbn [main_loop];
    destruct (Z.ltb_spec i (last_id_exclusive fl)) as [H|H];
    cbn [ended]; try discriminate; try lia.
  destruct (make_record fl i st) as [[r st']| |] eqn:E; cbn [ended];
    [|discriminate|now apply make_record_fuel in E].
  apply IH. lia.
Qed.

Lemma main_fuel (fl : flags) (fs : string -> dict_file) (g : rng) :
  ended (main fl fs g) <> OutOfFuel.
Proof.
  unfold main.
  destruct (fs (dict_filename fl)) as [|lines|lines]; cbn [init_data_structure];
    try discriminate.
  cbn [initial words word_index gen].
  destruct (shuffle _ _). apply main_loop_fuel. lia.
Qed.

End Termination.

Section Program.

Context {R : Runtime}.

(** C10. On a state whose pool is a rearrangement of the loaded words and
    whose cursor points into the pool (so the pool is not empty), a call of
    [next_word] returns and leaves such a state; so does [make_vchar] for
    every bound, and so does the construction of a row, unless [float]
    rejects the index. *)
Theorem pool_invariant_preserved (loaded : list string) (st : state) :
  pool_inv loaded st ->
  (exists w st', next_word st = Ret (w, st') /\ pool_inv loaded st') /\
  (forall max_len, exists s st',
     make_vchar max_len st = Ret (s, st') /\ pool_inv loaded st') /\
  (forall fl i,
     (exists r st', make_record fl i st = Ret (r, st') /\ pool_inv loaded st') \/
     (float i = None /\ make_record fl i st = Raise OverflowError)).
Proof.
  intros Hinv. split_ands.
  - destruct (next_word_inv loaded st Hinv) as (w & st' & H & Hinv' & _).
    now exists w, st'.
  - intros max_len. now apply make_vchar_inv.
  - intros fl i. destruct (float i) as [x|] eqn:Ex.
    + left. destruct (make_record_runs loaded fl i st x Hinv Ex)
        as (p & d & s & n & st' & H & Hinv' & _).
      eexists _, st'. split; [exact H | exact Hinv'].
    + right. split; [reflexivity|]. now apply make_record_overflow with loaded.
Qed.

(** C5. When the dictionary reads to its end and gives at least one word,
    and [float] accepts every index of the range, the run ends normally and
    prints the optional use line followed by exactly
    [last_id_exclusive - first_id_inclusive] record statements (none when
    that difference is negative), one per index of the range, in ascending
    order of the index. *)
Theorem main_prints_one_row_per_index (fl : flags) (fs : string -> dict_file)
    (g : rng) (lines : list string) :
  fs (dict_filename fl) = Readable lines ->
  load_lines [] lines <> [] ->
  (forall j, first_id_inclusive fl <= j < last_id_exclusive fl -> float j <> None) ->
  let n := Z.to_nat (last_id_exclusive fl - first_id_inclusive fl) in
  let o := main fl fs g in
  ended o = Ret tt /\
  printed o = use_line fl ++ map RECORD_FORMAT (rows o) /\
  List.length (rows o) = n /\
  List.length (printed o) = ((if print_use_db_line fl then 1 else 0) + n)%nat /\
  map seller_id (rows o) = ids_from (first_id_inclusive fl) n /\
  (forall k, (k < n)%nat -> exists r,
     nth_error (rows o) k = Some r /\
     seller_id r = first_id_inclusive fl + Z.of_nat k).
Proof.
  intros Hfs Hne Hfl. cbv zeta. rewrite (main_readable fl fs g lines Hfs).
  set (n := Z.to_nat (last_id_exclusive fl - first_id_inclusive fl)).
  destruct (main_loop_runs (load_lines [] lines) fl n (first_id_inclusive fl)
              _ [] (use_line fl) (init_establishes_inv lines g Hne) Hfl)
    as (new & -> & Hids); [subst n; lia|].
  fold n in Hids. cbn [rows printed ended app].
  assert (Hlen : List.length new = n).
  { rewrite <- (length_map seller_id), Hids. apply length_ids_from. }
  split_ands; try reflexivity; try assumption.
  - rewrite length_app, length_map, Hlen. unfold use_line.
    destruct (print_use_db_line fl); reflexivity.
  - intros k Hk. destruct (nth_error new k) as [r|] eqn:E.
    + exists r. split; [reflexivity|].
      pose proof (map_nth_error seller_id k new E) as Hm.
      rewrite Hids, nth_ids_from in Hm by assumption. now inversion Hm.
    + apply nth_error_None in E. lia.
Qed.

(** C6. The row built at position [k] of a run has index
    [first_id_inclusive + k], and its stock is [last_id_exclusive * 5] minus
    that index. *)
Theorem stock_of_row (fl : flags) (fs : string -> dict_file) (g : rng)
    (k : nat) (r : record pyfloat) :
  nth_error (rows (main fl fs g)) k = Some r ->
  seller_id r = first_id_inclusive fl + Z.of_nat k /\
  stock r = last_id_exclusive fl * 5 - (first_id_inclusive fl + Z.of_nat k) /\
  nth_error (printed (main fl fs g)) (List.length (use_line fl) + k)
    = Some (RECORD_FORMAT r).
Proof.
  unfold main.
  destruct (init_data_structure (fs (dict_filename fl)) (initial g)) as [st| |];
    cbn [rows]; try (destruct k; discriminate).
  destruct (main_loop_shape fl
              (Z.to_nat (last_id_exclusive fl - first_id_inclusive fl))
              (first_id_inclusive fl) st [] (use_line fl))
    as (new & -> & -> & Hids & Hall).
  cbn [app]. intros Hk.
  assert (Hlt : (k < List.length new)%nat) by (apply nth_error_Some; congruence).
  pose proof (map_nth_error seller_id k new Hk) as Hm.
  rewrite Hids, nth_ids_from in Hm by assumption. inversion Hm as [Hid].
  rewrite Forall_forall in Hall.
  destruct (Hall r (nth_error_In _ _ Hk)) as (_ & Hs & _).
  split_ands.
  - reflexivity.
  - rewrite Hs, <- Hid. reflexivity.
  - rewrite nth_error_app2 by lia.
    replace (List.length (use_line fl) + k - List.length (use_line fl))%nat
      with k by lia.
    now apply map_nth_error.
Qed.

(** C7 (amended). When the dictionary reads to its end and
    [last_id_exclusive <= first_id_inclusive], the run ends normally: it
    builds no row and prints the optional use line only. *)
Theorem empty_range_prints_no_row (fl : flags) (fs : string -> dict_file)
    (g : rng) (lines : list string) :
  fs (dict_filename fl) = Readable lines ->
  last_id_exclusive fl <= first_id_inclusive fl ->
  main fl fs g = {| rows := []; printed := use_line fl; ended := Ret tt |}.
Proof.
  intros Hfs Hle. rewrite (main_readable fl fs g lines Hfs).
  now apply main_loop_done.
Qed.

(** C8. When the dictionary cannot be opened, or a read of it fails, the run
    ends with the [IOError] of [open] or of the read (the resource error of
    the specification), and nothing at all has been printed. *)
Theorem unreadable_dictionary_is_fatal (fl : flags) (fs : string -> dict_file)
    (g : rng) :
  fs (dict_filename fl) = OpenFails \/
    (exists ls, fs (dict_filename fl) = ReadFails ls) ->
  main fl fs g = {| rows := []; printed := []; ended := Raise IOError |}.
Proof.
  intros [E | (ls & E)]; unfold main; rewrite E; reflexivity.
Qed.

(** C2 (amended). When the dictionary reads to its end and gives no word,
    loading raises nothing and leaves an empty pool.  The run prints the
    optional use line; then, if there is a row to build, it stops with the
    [IndexError] of the subscript in [next_word]; otherwise it ends
    normally. *)
Theorem empty_pool_fails_in_next_word (fl : flags) (fs : string -> dict_file)
    (g : rng) (lines : list string) :
  fs (dict_filename fl) = Readable lines ->
  load_lines [] lines = [] ->
  (exists st, init_data_structure (fs (dict_filename fl)) (initial g) = Ret st /\
     words st = [] /\ next_word st = Raise IndexError) /\
  main fl fs g =
    {| rows := []; printed := use_line fl;
       ended := if first_id_inclusive fl <? last_id_exclusive fl
                then Raise IndexError else Ret tt |}.
Proof.
  intros Hfs Hnil. split.
  - rewrite Hfs, init_readable. eexists. split; [reflexivity|].
    rewrite Hnil. cbn [words]. split; [apply shuffle_nil|].
    apply next_word_empty. apply shuffle_nil.
  - rewrite (main_readable fl fs g lines Hfs), Hnil.
    destruct (Z.ltb_spec (first_id_inclusive fl) (last_id_exclusive fl)) as [H|H].
    + apply main_loop_empty; [apply shuffle_nil | exact H | lia].
    + now apply main_loop_done.
Qed.

End Program.

Section ShippedRun.

Context {R : Runtime}.

(** The price column of an index a double holds exactly. *)
Lemma fmt_price_exact (i : Z) (x : pyfloat) :
  Z.abs i <= 2 ^ 53 -> float i = Some x -> fmt_02f x = (fmt_d i ++ ".00")%string.
Proof.
  intros Hi Hx. destruct (float_exact i Hi) as (y & Hy & Hfmt).
  rewrite Hx in Hy. inversion Hy; subst. exact Hfmt.
Qed.

Lemma record_format_header (r : record pyfloat) :
  r_table r = "Medium_Size" -> prefix medium_size_header (RECORD_FORMAT r) = true.
Proof. intros E. unfold RECORD_FORMAT. rewrite E. reflexivity. Qed.

(** C3 (amended). With the flags the script is shipped with (ids 0 to 4,
    table [Medium_Size], the use line for [sql-serv]) and a dictionary that
    loads to three words, the run ends normally and prints the line
    [use sql-serv;] (the keyword in lower case) followed by exactly four
    insert statements for table [Medium_Size], whose seller ids are 0, 1, 2, 3,
    whose stocks are 20, 19, 18, 17 and whose prices read 0.00 to 3.00. *)
Theorem shipped_run_output (fs : string -> dict_file) (g : rng)
    (lines : list string) :
  fs "/usr/share/dict/words" = Readable lines ->
  List.length (load_lines [] lines) = 3%nat ->
  exists r0 r1 r2 r3,
    main shipped_flags fs g =
      {| rows := [r0; r1; r2; r3];
         printed := ["use sql-serv;"; RECORD_FORMAT r0; RECORD_FORMAT r1;
                     RECORD_FORMAT r2; RECORD_FORMAT r3];
         ended := Ret tt |} /\
    map seller_id [r0; r1; r2; r3] = [0; 1; 2; 3] /\
    map stock [r0; r1; r2; r3] = [20; 19; 18; 17] /\
    map r_table [r0; r1; r2; r3]
      = ["Medium_Size"; "Medium_Size"; "Medium_Size"; "Medium_Size"] /\
    map (fun r => fmt_02f (price r)) [r0; r1; r2; r3]
      = ["0.00"; "1.00"; "2.00"; "3.00"] /\
    Forall (fun r => prefix medium_size_header (RECORD_FORMAT r) = true)
      [r0; r1; r2; r3].
Proof.
  intros Hfs Hlen.
  assert (Hne : load_lines [] lines <> []).
  { intros E. rewrite E in Hlen. discriminate. }
  rewrite (main_readable shipped_flags fs g lines Hfs).
  change (Z.to_nat (last_id_exclusive shipped_flags
                    - first_id_inclusive shipped_flags)) with 4%nat.
  change (first_id_inclusive shipped_flags) with 0.
  change (use_line shipped_flags) with ["use sql-serv;"].
  destruct (main_loop_runs (load_lines [] lines) shipped_flags 4 0 _ []
              ["use sql-serv;"] (init_establishes_inv lines g Hne))
    as (new & Heq & Hids).
  { intros j Hj. apply float_small. cbn in Hj. lia. }
  { cbn. lia. }
  destruct (main_loop_shape shipped_flags 4 0
              {| words := fst (shuffle (load_lines [] lines) g); word_index := 0;
                 gen := snd (shuffle (load_lines [] lines) g) |}
              [] ["use sql-serv;"])
    as (new' & Hrows & _ & _ & Hall).
  rewrite Heq in Hrows. cbn [rows app] in Hrows. subst new'.
  change (ids_from 0 (Z.to_nat (last_id_exclusive shipped_flags - 0)))
    with [0; 1; 2; 3] in Hids.
  destruct new as [|r0 [|r1 [|r2 [|r3 [|r4 new]]]]]; try discriminate Hids.
  cbn [map] in Hids. injection Hids as H0 H1 H2 H3.
  inversion Hall as [|? ? (T0 & S0 & F0) Hall1]; subst.
  inversion Hall1 as [|? ? (T1 & S1 & F1) Hall2]; subst.
  inversion Hall2 as [|? ? (T2 & S2 & F2) Hall3]; subst.
  inversion Hall3 as [|? ? (T3 & S3 & F3) _]; subst.
  exists r0, r1, r2, r3. rewrite Heq. cbn [app map].
  rewrite H0, H1, H2, H3 in *.
  split_ands.
  - reflexivity.
  - reflexivity.
  - rewrite S0, S1, S2, S3. reflexivity.
  - rewrite T0, T1, T2, T3. reflexivity.
  - rewrite (fmt_price_exact 0 _ ltac:(cbn; lia) F0),
            (fmt_price_exact 1 _ ltac:(cbn; lia) F1),
            (fmt_price_exact 2 _ ltac:(cbn; lia) F2),
            (fmt_price_exact 3 _ ltac:(cbn; lia) F3).
    reflexivity.
  - repeat constructor; apply record_format_header; assumption.
Qed.

End ShippedRun.

(** * The script run on the three-word dictionary

    The runs below use the runtime whose shuffle reverses the list. *)

Lemma abc_state_inv : pool_inv abc_pool abc_state.
Proof.
  split.
  - apply (Permutation_rev abc_pool).
  - cbn. lia.
Qed.

Lemma abc_loaded : load_lines [] abc_lines = abc_pool.
Proof. reflexivity. Qed.

(** C1, as stated, fails: the three-word dictionary is loaded (fourteen
    letters, sixteen characters when joined) and [make_vchar(6)] is called.
    The first word drawn, [gamma], brings [used] to 6 and ends the loop; the
    string returned is [gamma], of length 5 and not 6. *)
Lemma make_vchar_one_short :
  init_data_structure (R := rev_runtime) (Readable abc_lines) (initial 0%nat) = Ret abc_state /\
  make_vchar 6 abc_state =
    Ret ("gamma", {| words := ["gamma"; "beta"; "alpha"]; word_index := 1;
                     gen := 1%nat |}) /\
  len "gamma" = 5 /\
  len (join (words abc_state)) = 16 /\
  len "gamma" <> Z.min 6 (len (join (words abc_state))).
Proof. split_ands; try reflexivity. vm_compute. discriminate. Qed.

(** [make_vchar(6)] on the reversed three-word pool. *)
Lemma make_vchar_bounded_witness :
  exists chosen st',
    make_vchar 6 abc_state = Ret (slice_to (join chosen) 6, st') /\
    Forall (fun w => In w abc_pool) chosen /\
    6 <= used_after chosen /\
    (forall pre w, chosen = pre ++ [w] -> used_after pre < 6) /\
    len (slice_to (join chosen) 6) = Z.min 6 (len (join chosen)) /\
    6 - 1 <= len (slice_to (join chosen) 6) <= 6.
Proof. apply (make_vchar_bounded abc_pool 6 abc_state abc_state_inv). lia. Defined.

(** The same call, with the count [used] when the loop is left. *)
Lemma make_vchar_length_witness :
  exists chosen used st' vchar,
    make_vchar_loop (Z.to_nat 6) 6 [] 0 abc_state = Ret (chosen, used, st') /\
    used = used_after chosen /\
    make_vchar 6 abc_state = Ret (vchar, st') /\
    (len vchar = 6 \/ len vchar = 6 - 1) /\
    (len vchar = 6 - 1 <-> used = 6).
Proof. apply (make_vchar_length abc_pool 6 abc_state abc_state_inv). lia. Defined.

(** A cycle on the reversed three-word pool: three calls return the pool,
    the third one shuffles it back, and the fourth returns [alpha] again. *)
Lemma next_word_full_cycle_witness :
  draw 3 abc_state =
    Ret (["gamma"; "beta"; "alpha"],
         {| words := ["alpha"; "beta"; "gamma"]; word_index := 0; gen := 2%nat |}) /\
  draw 2 abc_state =
    Ret (["gamma"; "beta"],
         {| words := ["gamma"; "beta"; "alpha"]; word_index := 2; gen := 1%nat |}) /\
  exists st2, draw 4 abc_state = Ret (["gamma"; "beta"; "alpha"; "alpha"], st2).
Proof.
  destruct (next_word_full_cycle (R := rev_runtime) abc_pool ["gamma"; "beta"; "alpha"] 1%nat)
    as ((drawn & Hd & -> & _) & Hmid & (w & st2 & Hnext & Hw & _)).
  - discriminate.
  - apply (Permutation_rev abc_pool).
  - split; [exact Hd|]. split; [apply (Hmid 2%nat); cbn; lia|].
    exists st2. cbn in Hw. injection Hw as <-. exact Hnext.
Defined.

(** The invariant on the reversed three-word pool. *)
Lemma pool_invariant_preserved_witness :
  (exists w st', next_word abc_state = Ret (w, st') /\ pool_inv abc_pool st') /\
  (forall max_len, exists s st',
     make_vchar max_len abc_state = Ret (s, st') /\ pool_inv abc_pool st').
Proof.
  destruct (pool_invariant_preserved abc_pool abc_state abc_state_inv)
    as (Hw & Hv & _).
  split; [exact Hw | exact Hv].
Defined.

(** C2, as stated, fails: a dictionary of punctuation and blank lines loads
    to the empty pool, loading raises nothing, and the shipped run prints its
    use line before it stops with the [IndexError] of [next_word]. *)
Lemma blank_dictionary_fails_late :
  load_lines [] blank_lines = [] /\
  init_data_structure (R := rev_runtime) (Readable blank_lines) (initial 0%nat) =
    Ret {| words := []; word_index := 0; gen := 1%nat |} /\
  next_word {| words := []; word_index := 0; gen := 1%nat |} = Raise IndexError /\
  main (R := rev_runtime) shipped_flags (only_file (Readable blank_lines)) 0%nat =
    {| rows := []; printed := ["use sql-serv;"]; ended := Raise IndexError |}.
Proof. split_ands; reflexivity. Qed.

(** A dictionary of two blank lines, with rows to build and with none. *)
Lemma empty_pool_fails_in_next_word_witness :
  main (R := rev_runtime) shipped_flags (only_file (Readable [nl; nl])) 7%nat =
    {| rows := []; printed := ["use sql-serv;"]; ended := Raise IndexError |} /\
  main (R := rev_runtime) empty_range_flags (only_file (Readable [nl; nl])) 7%nat =
    {| rows := []; printed := ["use sql-serv;"]; ended := Ret tt |}.
Proof.
  split.
  - exact (proj2 (empty_pool_fails_in_next_word (R := rev_runtime) shipped_flags
                    (only_file (Readable [nl; nl])) 7%nat [nl; nl]
                    eq_refl eq_refl)).
  - exact (proj2 (empty_pool_fails_in_next_word (R := rev_runtime) empty_range_flags
                    (only_file (Readable [nl; nl])) 7%nat [nl; nl]
                    eq_refl eq_refl)).
Defined.

(** C3, as stated, fails on the first line: the shipped run on the three-word
    dictionary prints [use sql-serv;], the keyword in lower case, and no line
    it prints is [USE sql-serv;]. *)
Lemma use_line_is_lower_case :
  hd_error (printed (main (R := rev_runtime) shipped_flags (only_file (Readable abc_lines)) 0%nat))
    = Some "use sql-serv;" /\
  hd_error (printed (main (R := rev_runtime) shipped_flags (only_file (Readable abc_lines)) 0%nat))
    <> Some "USE sql-serv;" /\
  existsb (String.eqb "USE sql-serv;")
    (printed (main (R := rev_runtime) shipped_flags (only_file (Readable abc_lines)) 0%nat)) = false.
Proof.
  split_ands.
  - vm_compute. reflexivity.
  - vm_compute. discriminate.
  - vm_compute. reflexivity.
Qed.

(** The shipped run on the three-word dictionary. *)
Lemma shipped_run_output_witness :
  exists r0 r1 r2 r3,
    main (R := rev_runtime) shipped_flags (only_file (Readable abc_lines)) 0%nat =
      {| rows := [r0; r1; r2; r3];
         printed := ["use sql-serv;"; RECORD_FORMAT r0; RECORD_FORMAT r1;
                     RECORD_FORMAT r2; RECORD_FORMAT r3];
         ended := Ret tt |} /\
    map seller_id [r0; r1; r2; r3] = [0; 1; 2; 3] /\
    map stock [r0; r1; r2; r3] = [20; 19; 18; 17].
Proof.
  destruct (shipped_run_output (R := rev_runtime) (only_file (Readable abc_lines)) 0%nat abc_lines
              eq_refl eq_refl)
    as (r0 & r1 & r2 & r3 & Hm & Hi & Hs & _).
  exists r0, r1, r2, r3. split; [exact Hm|]. split; [exact Hi | exact Hs].
Defined.

(** The shipped run prints five lines: the use line and four statements. *)
Lemma main_prints_one_row_per_index_witness :
  ended (main (R := rev_runtime) shipped_flags (only_file (Readable abc_lines)) 0%nat) = Ret tt /\
  List.length (rows (main (R := rev_runtime) shipped_flags (only_file (Readable abc_lines)) 0%nat))
    = 4%nat /\
  List.length (printed (main (R := rev_runtime) shipped_flags (only_file (Readable abc_lines)) 0%nat))
    = 5%nat /\
  map seller_id (rows (main (R := rev_runtime) shipped_flags (only_file (Readable abc_lines)) 0%nat))
    = [0; 1; 2; 3].
Proof.
  destruct (main_prints_one_row_per_index (R := rev_runtime) shipped_flags
              (only_file (Readable abc_lines)) 0%nat abc_lines)
    as (He & _ & Hl & Hp & Hids & _).
  - reflexivity.
  - discriminate.
  - intros j _. discriminate.
  - split; [exact He|]. split; [exact Hl|]. split; [exact Hp | exact Hids].
Defined.

(** The third row of the shipped run. *)
Lemma stock_of_row_witness :
  exists r,
    nth_error (rows (main (R := rev_runtime) shipped_flags (only_file (Readable abc_lines)) 0%nat)) 2
      = Some r /\
    seller_id r = 2 /\ stock r = 18.
Proof.
  destruct (nth_error
              (rows (main (R := rev_runtime) shipped_flags (only_file (Readable abc_lines)) 0%nat)) 2)
    as [r|] eqn:E.
  - exists r. split; [reflexivity|].
    destruct (stock_of_row (R := rev_runtime) shipped_flags (only_file (Readable abc_lines)) 0%nat
                2%nat r E) as (Hi & Hs & _).
    split; [exact Hi | exact Hs].
  - vm_compute in E. discriminate E.
Defined.

(** C7, as stated, fails: with [first_id_inclusive = last_id_exclusive = 4]
    the run on the three-word dictionary raises nothing; it prints the use
    line and ends normally. *)
Lemma empty_range_raises_nothing :
  last_id_exclusive empty_range_flags <= first_id_inclusive empty_range_flags /\
  main (R := rev_runtime) empty_range_flags (only_file (Readable abc_lines)) 0%nat =
    {| rows := []; printed := ["use sql-serv;"]; ended := Ret tt |}.
Proof. split; [cbn; lia | reflexivity]. Qed.

(** A run with [first_id_inclusive = 5] and [last_id_exclusive = 4]. *)
Lemma empty_range_prints_no_row_witness :
  main (R := rev_runtime) reversed_range_flags (only_file (Readable abc_lines)) 0%nat =
    {| rows := []; printed := ["use sql-serv;"]; ended := Ret tt |}.
Proof.
  apply (empty_range_prints_no_row (R := rev_runtime) reversed_range_flags
           (only_file (Readable abc_lines)) 0%nat abc_lines).
  - reflexivity.
  - cbn. lia.
Defined.

(** A dictionary that cannot be opened, and one whose reading fails. *)
Lemma unreadable_dictionary_is_fatal_witness :
  main (R := rev_runtime) shipped_flags (only_file OpenFails) 0%nat =
    {| rows := []; printed := []; ended := Raise IOError |} /\
  main (R := rev_runtime) shipped_flags (only_file (ReadFails abc_lines)) 0%nat =
    {| rows := []; printed := []; ended := Raise IOError |}.
Proof.
  split.
  - apply (unreadable_dictionary_is_fatal (R := rev_runtime) shipped_flags (only_file OpenFails)).
    left. reflexivity.
  - apply (unreadable_dictionary_is_fatal (R := rev_runtime) shipped_flags
             (only_file (ReadFails abc_lines))).
    right. exists abc_lines. reflexivity.
Defined.

(** * Further properties of the script

    ** Loading the dictionary (lines 47-55) *)

(** Every character of [s] satisfies [p]. *)
Fixpoint forallb_string (p : ascii -> bool) (s : string) : bool :=
  match s with
  | EmptyString => true
  | String c r => p c && forallb_string p r
  end.

(** A word as the pool holds them: not empty, letters and digits only. *)
Definition is_word (s : string) : bool :=
  negb (s =? "")%string && forallb_string is_alnum s.

(** A line without any letter or digit. *)
Definition no_alnum (line : string) : bool :=
  forallb_string (fun c => negb (is_alnum c)) line.

(** The strings that are not empty. *)
Definition nonempty (s : string) : bool := negb (s =? "")%string.

(** Characters of the generated text: letters, digits and the space. *)
Definition is_text_char (c : ascii) : bool := is_alnum c || Ascii.eqb c " ".

Definition text_only (s : string) : bool := forallb_string is_text_char s.

(** No double quote in [s]. *)
Definition quote_free (s : string) : bool :=
  forallb_string (fun c => negb (Ascii.eqb c "034")) s.

(** A runtime whose [float] accepts the integers that round to a finite
    double, those below [2^1024 - 2^970] in magnitude, and rejects the
    others; its shuffle reverses the list. *)
Definition double_limit : Z := 2 ^ 1024 - 2 ^ 970.

Definition float_in_range (i : Z) : option Z :=
  if Z.abs i <? double_limit then Some i else None.

Lemma float_in_range_exact (i : Z) :
  Z.abs i <= 2 ^ 53 ->
  exists x, float_in_range i = Some x /\
            (fmt_d x ++ ".00")%string = (fmt_d i ++ ".00")%string.
Proof.
  intros H. exists i. split; [|reflexivity]. unfold float_in_range.
  assert (2 ^ 53 < double_limit) by (vm_compute; reflexivity).
  destruct (Z.ltb_spec (Z.abs i) double_limit); [reflexivity | lia].
Qed.

Definition double_runtime : Runtime := {|
  rng := nat;
  shuffle := rev_shuffle;
  shuffle_perm := fun l _ => Permutation_rev l;
  pyfloat := Z;
  float := float_in_range;
  fmt_02f := fun x => (fmt_d x ++ ".00")%string;
  float_exact := float_in_range_exact
|}.

(** Flags whose range of ids crosses the limit of [float]: the first index
    is the last one accepted. *)
Definition overflow_flags : flags := {|
  dict_filename := "/usr/share/dict/words";
  first_id_inclusive := double_limit - 1;
  last_id_exclusive := double_limit + 2;
  db_name := "sql-serv";
  table_name := "Medium_Size";
  print_use_db_line := true
|}.

Section Loading.

Context {R : Runtime}.

Lemma forallb_string_append (p : ascii -> bool) (s1 s2 : string) :
  forallb_string p (s1 ++ s2) = forallb_string p s1 && forallb_string p s2.
Proof.
  induction s1 as [|c s1 IH]; cbn [append forallb_string]; [reflexivity|].
  rewrite IH. apply andb_assoc.
Qed.

(** What [re.sub] keeps are letters and digits. *)
Lemma filter_chars_all (p : ascii -> bool) (s : string) :
  forallb_string p (filter_chars p s) = true.
Proof.
  induction s as [|c s IH]; cbn [filter_chars]; [reflexivity|].
  destruct (p c) eqn:E; [cbn [forallb_string]; now rewrite E | exact IH].
Qed.

(** [re.sub] leaves nothing exactly when the line has no letter or digit. *)
Lemma re_sub_empty_iff (line : string) :
  re_sub_non_alnum line = EmptyString <-> no_alnum line = true.
Proof.
  unfold re_sub_non_alnum, no_alnum.
  induction line as [|c s IH]; cbn [filter_chars forallb_string].
  - split; reflexivity.
  - destruct (is_alnum c); cbn [negb andb].
    + split; discriminate.
    + exact IH.
Qed.

Lemma alnum_not_space (c : ascii) : is_alnum c = true -> is_space c = false.
Proof.
  destruct c as [[] [] [] [] [] [] [] []]; vm_compute; congruence.
Qed.

Lemma rstrip_alnum (s : string) :
  forallb_string is_alnum s = true -> rstrip s = s.
Proof.
  induction s as [|c s IH]; cbn [forallb_string rstrip]; [reflexivity|].
  intros H. apply andb_prop in H as [Hc Hs]. rewrite (IH Hs).
  destruct s; [|reflexivity]. now rewrite (alnum_not_space c Hc).
Qed.

(** [strip] has nothing to remove from what [re.sub] leaves. *)
Lemma strip_alnum (s : string) :
  forallb_string is_alnum s = true -> strip s = s.
Proof.
  intros H. unfold strip.
  assert (Hl : lstrip s = s).
  { destruct s as [|c s]; [reflexivity|]. cbn [forallb_string] in H.
    apply andb_prop in H as [Hc _]. cbn [lstrip].
    now rewrite (alnum_not_space c Hc). }
  rewrite Hl. now apply rstrip_alnum.
Qed.

Lemma len_pos_nonempty (s : string) : (0 <? len s) = nonempty s.
Proof. destruct s; reflexivity. Qed.

(** One turn of the loading loop. *)
Lemma add_line_filtered (ws : list string) (line : string) :
  add_line ws line =
    ws ++ filter nonempty [re_sub_non_alnum line].
Proof.
  unfold add_line. rewrite strip_alnum by apply filter_chars_all.
  rewrite len_pos_nonempty. cbn [filter].
  destruct (nonempty (re_sub_non_alnum line)); [reflexivity|].
  now rewrite app_nil_r.
Qed.

(** The loading loop, as a filter over the lines. *)
Lemma load_lines_as_filter (lines : list string) : forall ws,
  load_lines ws lines = ws ++ filter nonempty (map re_sub_non_alnum lines).
Proof.
  unfold load_lines. induction lines as [|x l IH]; intros w; cbn [fold_left map].
  - now rewrite app_nil_r.
  - rewrite IH, add_line_filtered, <- app_assoc. f_equal.
    cbn [filter]. destruct (nonempty (re_sub_non_alnum x)); reflexivity.
Qed.

(** X2. The words appended by the loading loop are the lines of the file,
    each reduced to its letters and digits, without those that become
    empty, in the order of the file; [strip] changes none of them.  So
    the pool never has more words than the file has lines. *)
Theorem load_lines_filtered (ws lines : list string) :
  load_lines ws lines =
    ws ++ filter nonempty (map re_sub_non_alnum lines) /\
  (List.length (load_lines [] lines) <= List.length lines)%nat.
Proof.
  split; [apply load_lines_as_filter|].
  rewrite load_lines_as_filter. cbn [app].
  etransitivity; [apply filter_length_le|]. now rewrite length_map.
Qed.

Lemma loaded_words (lines : list string) :
  Forall (fun w => is_word w = true) (load_lines [] lines).
Proof.
  rewrite load_lines_as_filter. cbn [app].
  apply Forall_forall. intros w Hw. apply filter_In in Hw as [Hin Hne].
  apply in_map_iff in Hin as (line & <- & _).
  unfold is_word. fold (nonempty (re_sub_non_alnum line)). rewrite Hne.
  apply filter_chars_all.
Qed.

(** X1. Loading a readable dictionary always succeeds; it leaves the cursor
    at zero and a pool that is a rearrangement of the words read, each of
    them a non-empty string of letters and digits. *)
Theorem init_pool_words (lines : list string) (g : rng) :
  exists st,
    init_data_structure (Readable lines) (initial g) = Ret st /\
    word_index st = 0 /\
    Permutation (load_lines [] lines) (words st) /\
    Forall (fun w => is_word w = true) (words st).
Proof.
  rewrite init_readable. eexists. split; [reflexivity|]. cbn [words word_index].
  pose proof (shuffle_perm (load_lines [] lines) g) as Hp.
  split_ands; [reflexivity | exact Hp |].
  eapply Permutation_Forall; [exact Hp | apply loaded_words].
Qed.

(** X3. The pool loaded is empty exactly when no line of the file holds a
    letter or a digit. *)
Theorem empty_pool_iff_no_alnum (lines : list string) :
  load_lines [] lines = [] <-> forallb no_alnum lines = true.
Proof.
  rewrite load_lines_as_filter. cbn [app].
  induction lines as [|l lines IH]; cbn [map filter forallb].
  - split; reflexivity.
  - unfold nonempty at 1.
    destruct (String.eqb_spec (re_sub_non_alnum l) "") as [E|E]; cbn [negb].
    + rewrite (proj1 (re_sub_empty_iff l) E). cbn [andb]. exact IH.
    + split; [discriminate|]. intros H. apply andb_prop in H as [Hl _].
      apply re_sub_empty_iff in Hl. contradiction.
Qed.

End Loading.

(** ** Drawing words (lines 58-76) *)

Section Drawing.

Context {R : Runtime}.

(** A subscript raises [IndexError] only, and only outside the list. *)
Lemma getitem_raises {A : Type} (l : list A) (i : Z) (e : exn) :
  getitem l i = Raise e ->
  e = IndexError /\ ~ (- llen l <= i < llen l).
Proof.
  unfold getitem, llen.
  destruct (Z.ltb_spec i 0) as [Hi|Hi].
  - destruct (Z.ltb_spec (i + Z.of_nat (List.length l)) 0) as [Hj|Hj]; cbn [orb].
    + intros H. inversion H. split; [reflexivity | lia].
    + destruct (Z.leb_spec (Z.of_nat (List.length l))
                  (i + Z.of_nat (List.length l))) as [Hk|Hk]; [lia|].
      destruct (nth_error l (Z.to_nat (i + Z.of_nat (List.length l)))) eqn:E;
        [discriminate|]. apply nth_error_None in E. lia.
  - destruct (Z.ltb_spec i 0) as [Hj|Hj]; [lia|]. cbn [orb].
    destruct (Z.leb_spec (Z.of_nat (List.length l)) i) as [Hk|Hk].
    + intros H. inversion H. split; [reflexivity | lia].
    + destruct (nth_error l (Z.to_nat i)) eqn:E; [discriminate|].
      apply nth_error_None in E. lia.
Qed.

(** A subscript that gives an element was applied to a non-empty list. *)
Lemma getitem_ret_nonempty {A : Type} (l : list A) (i : Z) (x : A) :
  getitem l i = Ret x -> 0 < llen l.
Proof.
  unfold getitem, llen. destruct (_ || _) eqn:E; [discriminate|].
  apply orb_false_elim in E as [E1 E2].
  apply Z.ltb_ge in E1. apply Z.leb_gt in E2. intros _. lia.
Qed.

(** X5. Whatever the state, the only exception [next_word] raises is the
    [IndexError] of its subscript, and it raises it only when the cursor is
    outside the pool (always so when the pool is empty): the remainder by
    [len(words)] never divides by zero, since the subscript fails first. *)
Theorem next_word_raises_index_error_only (st : state) (e : exn) :
  next_word st = Raise e ->
  e = IndexError /\
  ~ (- llen (words st) <= word_index st < llen (words st)).
Proof.
  unfold next_word.
  destruct (getitem (words st) (word_index st)) as [w|e'|] eqn:E; cbn [bind].
  - apply getitem_ret_nonempty in E. unfold py_mod.
    destruct (Z.eqb_spec (llen (words st)) 0) as [H|_]; [lia|]. cbn [bind].
    destruct (0 =? _); [destruct (shuffle _ _)|]; discriminate.
  - intros H. inversion H; subst. now apply getitem_raises in E.
  - discriminate.
Qed.

(** X4. For a bound that is zero or negative [make_vchar] draws nothing: it
    returns the empty string and leaves the pool and the cursor as they
    are, even when the pool is empty. *)
Theorem make_vchar_nonpositive (max_len : Z) (st : state) :
  max_len <= 0 -> make_vchar max_len st = Ret (EmptyString, st).
Proof.
  intros H. unfold make_vchar. rewrite make_vchar_loop_exit by exact H.
  cbn [bind]. unfold slice_to, join. cbn [String.concat].
  destruct (Z.to_nat _); reflexivity.
Qed.

(** The words the loop of [make_vchar] appends are those that as many calls
    of [next_word] return, one turn of the loop for each. *)
Lemma make_vchar_loop_draws (max_len : Z) (fuel : nat) :
  forall chosen used st c u st',
  make_vchar_loop fuel max_len chosen used st = Ret (c, u, st') ->
  exists more,
    c = chosen ++ more /\ u = used + used_after more /\
    draw (List.length more) st = Ret (more, st') /\
    (List.length more <= fuel)%nat.
Proof.
  induction fuel as [|fuel IH]; intros chosen used st c u st';
    cbn [make_vchar_loop]; destruct (used <? max_len).
  - discriminate.
  - intros H. inversion H; subst. exists []. rewrite app_nil_r.
    cbn [used_after fold_right]. rewrite Z.add_0_r. auto.
  - destruct (next_word st) as [[w st1]| |] eqn:E; cbn [bind]; try discriminate.
    intros H. apply IH in H as (more & -> & -> & Hd & Hl).
    exists (w :: more). rewrite <- app_assoc.
    cbn [app used_after fold_right List.length draw]. fold (used_after more).
    rewrite E. cbn [bind]. rewrite Hd. cbn [bind].
    split_ands; try reflexivity; lia.
  - intros H. inversion H; subst. exists []. rewrite app_nil_r.
    cbn [used_after fold_right]. rewrite Z.add_0_r.
    split_ands; try reflexivity. cbn. lia.
Qed.

(** X6. Whenever [make_vchar] returns, the words it has joined are the
    words that the same number of successive [next_word] calls return from
    the state it started in, and it leaves the state those calls leave; it
    draws at most [max_len] words, and the text is never longer than the
    bound. *)
Theorem make_vchar_draws_consecutive (max_len : Z) (st st' : state) (s : string) :
  make_vchar max_len st = Ret (s, st') ->
  exists chosen,
    draw (List.length chosen) st = Ret (chosen, st') /\
    s = slice_to (join chosen) max_len /\
    (List.length chosen <= Z.to_nat max_len)%nat /\
    len s <= Z.max 0 max_len.
Proof.
  unfold make_vchar.
  destruct (make_vchar_loop (Z.to_nat max_len) max_len [] 0 st)
    as [[[c u] st1]| |] eqn:E; cbn [bind]; try discriminate.
  intros H. inversion H; subst.
  apply make_vchar_loop_draws in E as (more & -> & _ & Hd & Hl).
  exists more. cbn [app]. split_ands; try assumption; try reflexivity.
  destruct (Z.ltb_spec max_len 0) as [Hneg|Hpos].
  - destruct more; [|cbn [List.length] in Hl; lia].
    unfold slice_to, join. cbn [String.concat].
    assert (E0 : forall n, substring 0 n EmptyString = EmptyString)
      by (intros []; reflexivity).
    rewrite E0. change (len EmptyString) with 0. lia.
  - rewrite len_slice_to by exact Hpos. lia.
Qed.

(** X7. On a pool that satisfies the invariant, any number [n] of
    successive [next_word] calls return [n] words of the loaded pool and
    keep the invariant; the cursor ends [n] places further, counted modulo
    the size of the pool. *)
Theorem draw_advances_cursor (loaded : list string) (n : nat) : forall st,
  pool_inv loaded st ->
  exists ws st',
    draw n st = Ret (ws, st') /\
    List.length ws = n /\
    Forall (fun w => In w loaded) ws /\
    pool_inv loaded st' /\
    word_index st' = (word_index st + Z.of_nat n) mod llen (words st).
Proof.
  induction n as [|n IH]; intros st Hinv.
  - exists [], st. cbn [draw List.length]. rewrite Z.add_0_r.
    destruct Hinv as [Hp Hi]. rewrite Z.mod_small by exact Hi.
    split_ands; auto. split; assumption.
  - pose proof Hinv as [Hp Hi].
    destruct (next_word_in_range st Hi) as (w & Hnth & Hnw).
    destruct (next_word_inv loaded st Hinv) as (w' & st1 & Hnw' & Hinv1 & Hin).
    assert (Hidx : word_index st1 = (word_index st + 1) mod llen (words st)
                   /\ llen (words st1) = llen (words st)).
    { rewrite Hnw in Hnw'. inversion Hnw'; subst.
      destruct (Z.eqb_spec (word_index st + 1) (llen (words st))) as [E|E];
        cbn [words word_index].
      - rewrite E, Z_mod_same_full. split; [reflexivity|]. unfold llen.
        now rewrite <- (Permutation_length (shuffle_perm (words st) (gen st))).
      - rewrite Z.mod_small by lia. split; reflexivity. }
    destruct Hidx as [Hidx Hlen].
    destruct (IH st1 Hinv1) as (ws & st' & Hd & Hl & Hall & Hinv' & Hc).
    exists (w' :: ws), st'. cbn [draw]. rewrite Hnw'. cbn [bind].
    rewrite Hd. cbn [bind List.length].
    split_ands; try reflexivity; try assumption.
    + now rewrite Hl.
    + constructor; assumption.
    + rewrite Hc, Hidx, Hlen, Z.add_mod_idemp_l by lia. f_equal. lia.
Qed.

End Drawing.

(** A cursor past the end of the pool. *)
Definition stray_state : @state rev_runtime :=
  {| words := ["gamma"; "beta"; "alpha"]; word_index := 3; gen := 1%nat |}.

Lemma next_word_raises_index_error_only_witness :
  next_word stray_state = Raise IndexError /\
  ~ (- llen (words stray_state) <= word_index stray_state
     < llen (words stray_state)).
Proof.
  split; [reflexivity|].
  exact (proj2 (next_word_raises_index_error_only (R := rev_runtime)
                  stray_state IndexError eq_refl)).
Defined.

Lemma make_vchar_nonpositive_witness :
  make_vchar 0 abc_state = Ret (EmptyString, abc_state) /\
  make_vchar (-3) (initial (R := rev_runtime) 0%nat)
    = Ret (EmptyString, initial (R := rev_runtime) 0%nat).
Proof.
  split.
  - apply (make_vchar_nonpositive (R := rev_runtime) 0 abc_state). lia.
  - apply (make_vchar_nonpositive (-3) (initial (R := rev_runtime) 0%nat)). lia.
Defined.

Lemma make_vchar_draws_consecutive_witness :
  exists chosen,
    draw (List.length chosen) abc_state =
      Ret (chosen, {| words := ["alpha"; "beta"; "gamma"]; word_index := 0;
                      gen := 2%nat |}) /\
    "gamma beta alpha" = slice_to (join chosen) 16 /\
    (List.length chosen <= Z.to_nat 16)%nat /\
    len "gamma beta alpha" <= Z.max 0 16.
Proof.
  apply (make_vchar_draws_consecutive (R := rev_runtime) 16 abc_state).
  reflexivity.
Defined.

Lemma draw_advances_cursor_witness :
  exists ws st',
    draw 7 abc_state = Ret (ws, st') /\
    List.length ws = 7%nat /\
    Forall (fun w => In w abc_pool) ws /\
    pool_inv abc_pool st' /\
    word_index st' = (word_index abc_state + Z.of_nat 7)
                       mod llen (words abc_state).
Proof.
  apply (draw_advances_cursor (R := rev_runtime) abc_pool 7 abc_state
           abc_state_inv).
Defined.

(** ** Rows and runs (lines 79-97) *)

(** A text column of width [width] built from the words [loaded]: some of
    these words joined by single spaces and cut at [width], filling the
    width or missing it by one character. *)
Definition from_pool (loaded : list string) (width : Z) (s : string) : Prop :=
  exists chosen,
    s = slice_to (join chosen) width /\
    Forall (fun w => In w loaded) chosen /\
    width - 1 <= len s <= width.

Definition row_from_pool {F : Type} (loaded : list string) (r : record F) : Prop :=
  from_pool loaded 48 (part r) /\ from_pool loaded 2024 (des r) /\
  from_pool loaded 128 (seller_name r) /\ from_pool loaded 7168 (notes r).

Section Rows.

Context {R : Runtime}.

Lemma make_vchar_from_pool (loaded : list string) (width : Z) (st : state) :
  pool_inv loaded st -> 1 <= width ->
  exists s st',
    make_vchar width st = Ret (s, st') /\ pool_inv loaded st' /\
    from_pool loaded width s.
Proof.
  intros Hinv Hw.
  destruct (make_vchar_runs loaded width st Hinv Hw)
    as (chosen & st' & _ & Hm & Hinv' & _ & Hge & _ & Hall & Hlen).
  eexists _, st'. split; [exact Hm|]. split; [exact Hinv'|].
  exists chosen. split_ands; try reflexivity; try assumption; lia.
Qed.

(** A row built on a pool that satisfies the invariant. *)
Lemma make_record_from_pool (loaded : list string) (fl : flags) (i : Z)
    (st st' : state) (r : record pyfloat) :
  pool_inv loaded st -> make_record fl i st = Ret (r, st') ->
  pool_inv loaded st' /\ row_from_pool loaded r.
Proof.
  intros Hinv.
  destruct (make_vchar_from_pool loaded 48 st Hinv)
    as (p & s1 & Hm1 & Hinv1 & Hp); [lia|].
  destruct (make_vchar_from_pool loaded 2024 s1 Hinv1)
    as (d & s2 & Hm2 & Hinv2 & Hd); [lia|].
  destruct (make_vchar_from_pool loaded 128 s2 Hinv2)
    as (n & s3 & Hm3 & Hinv3 & Hn); [lia|].
  destruct (make_vchar_from_pool loaded 7168 s3 Hinv3)
    as (t & s4 & Hm4 & Hinv4 & Ht); [lia|].
  unfold make_record.
  rewrite Hm1. cbn [bind]. rewrite Hm2. cbn [bind]. rewrite Hm3. cbn [bind].
  destruct (float i); cbn [bind]; [|discriminate].
  rewrite Hm4. cbn [bind]. intros H. inversion H; subst.
  split; [exact Hinv4|]. unfold row_from_pool. cbn. auto.
Qed.

(** The rows the loop of [main] builds on such a pool. *)
Lemma main_loop_rows_from_pool (loaded : list string) (fl : flags) (fuel : nat) :
  forall i st rs out,
  pool_inv loaded st ->
  exists new,
    rows (main_loop fuel fl i st rs out) = rs ++ new /\
    Forall (row_from_pool loaded) new.
Proof.
  induction fuel as [|fuel IH]; intros i st rs out Hinv; cbn [main_loop].
  - exists []. rewrite app_nil_r. destruct (i <? _); auto.
  - destruct (i <? _); [|exists []; rewrite app_nil_r; auto].
    destruct (make_record fl i st) as [[r st']| |] eqn:E;
      try (exists []; rewrite app_nil_r; auto; fail).
    destruct (make_record_from_pool loaded fl i st st' r Hinv E) as [Hinv' Hr].
    destruct (IH (i + 1) st' (rs ++ [r]) (out ++ [RECORD_FORMAT r]) Hinv')
      as (new & -> & Hall).
    exists (r :: new). rewrite <- app_assoc. split; [reflexivity|].
    constructor; assumption.
Qed.

(** The rows of a whole run are built from the words loaded. *)
Lemma main_rows_from_pool (fl : flags) (fs : string -> dict_file) (g : rng)
    (r : record pyfloat) :
  In r (rows (main fl fs g)) ->
  exists lines,
    fs (dict_filename fl) = Readable lines /\
    row_from_pool (load_lines [] lines) r.
Proof.
  destruct (fs (dict_filename fl)) as [|lines|lines] eqn:Hfs;
    try (unfold main; rewrite Hfs; cbn; contradiction).
  rewrite (main_readable fl fs g lines Hfs). intros Hin. exists lines.
  split; [reflexivity|].
  destruct (load_lines [] lines) as [|w0 ws0] eqn:Hl.
  - exfalso. revert Hin.
    destruct (Z.ltb_spec (first_id_inclusive fl) (last_id_exclusive fl)).
    + rewrite main_loop_empty; [cbn; auto | apply shuffle_nil | assumption | lia].
    + rewrite main_loop_done by assumption. cbn. auto.
  - rewrite <- Hl in *.
    assert (Hne : load_lines [] lines <> []) by (rewrite Hl; discriminate).
    destruct (main_loop_rows_from_pool (load_lines [] lines) fl
                (Z.to_nat (last_id_exclusive fl - first_id_inclusive fl))
                (first_id_inclusive fl) _ [] (use_line fl)
                (init_establishes_inv lines g Hne)) as (new & Hrows & Hall).
    rewrite Hrows in Hin. cbn [app] in Hin.
    rewrite Forall_forall in Hall. now apply Hall.
Qed.

(** X8. In every row a run builds, each text column fills the width of its
    column in the table or misses it by one character: 47 or 48 characters
    for [part], 2023 or 2024 for the description, 127 or 128 for
    [seller_name], 7167 or 7168 for [notes]. *)
Theorem text_columns_fit (fl : flags) (fs : string -> dict_file) (g : rng)
    (r : record pyfloat) :
  In r (rows (main fl fs g)) ->
  47 <= len (part r) <= 48 /\ 2023 <= len (des r) <= 2024 /\
  127 <= len (seller_name r) <= 128 /\ 7167 <= len (notes r) <= 7168.
Proof.
  intros Hin.
  destruct (main_rows_from_pool fl fs g r Hin)
    as (lines & _ & (c1 & _ & _ & H1) & (c2 & _ & _ & H2)
        & (c3 & _ & _ & H3) & (c4 & _ & _ & H4)).
  lia.
Qed.

Lemma forallb_string_impl (p q : ascii -> bool) (s : string) :
  (forall c, p c = true -> q c = true) ->
  forallb_string p s = true -> forallb_string q s = true.
Proof.
  intros Hpq. induction s as [|c s IH]; cbn [forallb_string]; [reflexivity|].
  intros H. apply andb_prop in H as [Hc Hs]. now rewrite (Hpq c Hc), IH.
Qed.

Lemma forallb_substring_0 (p : ascii -> bool) (n : nat) : forall s,
  forallb_string p s = true -> forallb_string p (substring 0 n s) = true.
Proof.
  induction n as [|n IH]; intros [|c s]; cbn [substring forallb_string];
    try reflexivity.
  intros H. apply andb_prop in H as [Hc Hs]. now rewrite Hc, IH.
Qed.

Lemma text_only_join (chosen : list string) :
  Forall (fun w => is_word w = true) chosen -> text_only (join chosen) = true.
Proof.
  assert (Hw : forall w, is_word w = true -> text_only w = true).
  { intros w H. unfold is_word in H. apply andb_prop in H as [_ H].
    revert H. apply forallb_string_impl. intros c Hc. unfold is_text_char.
    now rewrite Hc. }
  induction chosen as [|w ws IH]; intros H; [reflexivity|].
  inversion H as [|? ? H1 H2]; subst. destruct ws as [|w' ws].
  - now apply Hw.
  - change (join (w :: w' :: ws)) with (w ++ " " ++ join (w' :: ws))%string.
    unfold text_only in *. rewrite !forallb_string_append.
    rewrite (Hw w H1), (IH H2). reflexivity.
Qed.

Lemma text_char_not_quote (c : ascii) :
  is_text_char c = true -> negb (Ascii.eqb c "034") = true.
Proof.
  destruct c as [[] [] [] [] [] [] [] []]; vm_compute; congruence.
Qed.

(** A column built from a pool of letters-and-digits words. *)
Lemma from_pool_text (loaded : list string) (width : Z) (s : string) :
  Forall (fun w => is_word w = true) loaded -> from_pool loaded width s ->
  text_only s = true /\ quote_free s = true.
Proof.
  intros Hl (chosen & -> & Hall & _).
  assert (Ht : text_only (slice_to (join chosen) width) = true).
  { unfold slice_to, text_only. apply forallb_substring_0.
    apply text_only_join. rewrite Forall_forall in *. auto. }
  split; [exact Ht|]. revert Ht. apply forallb_string_impl.
  exact text_char_not_quote.
Qed.

(** X9. In every row a run builds, the four text columns hold letters,
    digits and spaces only; in particular none of them holds a double
    quote, the delimiter [RECORD_FORMAT] puts around them. *)
Theorem text_columns_are_plain (fl : flags) (fs : string -> dict_file) (g : rng)
    (r : record pyfloat) :
  In r (rows (main fl fs g)) ->
  (text_only (part r) = true /\ quote_free (part r) = true) /\
  (text_only (des r) = true /\ quote_free (des r) = true) /\
  (text_only (seller_name r) = true /\ quote_free (seller_name r) = true) /\
  (text_only (notes r) = true /\ quote_free (notes r) = true).
Proof.
  intros Hin.
  destruct (main_rows_from_pool fl fs g r Hin) as (lines & _ & H1 & H2 & H3 & H4).
  pose proof (loaded_words lines) as Hl.
  split_ands; eapply from_pool_text; eassumption.
Qed.

(** X10. The price of the row at position [k] reads as the index
    [first_id_inclusive + k] followed by [.00], for every index that a
    double holds exactly. *)
Theorem price_of_row (fl : flags) (fs : string -> dict_file) (g : rng)
    (k : nat) (r : record pyfloat) :
  nth_error (rows (main fl fs g)) k = Some r ->
  Z.abs (first_id_inclusive fl + Z.of_nat k) <= 2 ^ 53 ->
  fmt_02f (price r) = (fmt_d (first_id_inclusive fl + Z.of_nat k) ++ ".00")%string.
Proof.
  unfold main.
  destruct (init_data_structure (fs (dict_filename fl)) (initial g)) as [st| |];
    cbn [rows]; try (destruct k; discriminate).
  destruct (main_loop_shape fl
              (Z.to_nat (last_id_exclusive fl - first_id_inclusive fl))
              (first_id_inclusive fl) st [] (use_line fl))
    as (new & -> & _ & Hids & Hall).
  cbn [app]. intros Hk Hsmall.
  assert (Hlt : (k < List.length new)%nat) by (apply nth_error_Some; congruence).
  pose proof (map_nth_error seller_id k new Hk) as Hm.
  rewrite Hids, nth_ids_from in Hm by assumption. inversion Hm as [Hid].
  rewrite Forall_forall in Hall.
  destruct (Hall r (nth_error_In _ _ Hk)) as (_ & _ & Hf).
  rewrite <- Hid in Hf. now apply fmt_price_exact.
Qed.

End Rows.

Section Endings.

Context {R : Runtime}.

(** The loop of [main] on a non-empty pool when [float] rejects the index
    [j] and accepts those before it: the rows before [j] are built and
    printed, and the run stops there. *)
Lemma main_loop_overflow (loaded : list string) (fl : flags) (j : Z)
    (fuel : nat) : forall i st rs out,
  pool_inv loaded st ->
  i <= j < last_id_exclusive fl -> float j = None ->
  (forall k, i <= k < j -> float k <> None) ->
  (Z.to_nat (last_id_exclusive fl - i) <= fuel)%nat ->
  exists new,
    main_loop fuel fl i st rs out =
      {| rows := rs ++ new; printed := out ++ map RECORD_FORMAT new;
         ended := Raise OverflowError |} /\
    map seller_id new = ids_from i (Z.to_nat (j - i)).
Proof.
  induction fuel as [|fuel IH]; intros i st rs out Hinv Hj Hnone Hbefore Hfuel;
    [lia|].
  cbn [main_loop]. destruct (Z.ltb_spec i (last_id_exclusive fl)); [|lia].
  destruct (Z.eq_dec i j) as [->|Hne].
  - rewrite (make_record_overflow loaded fl j st Hinv Hnone).
    exists []. rewrite !app_nil_r. rewrite Z.sub_diag. auto.
  - destruct (float i) as [x|] eqn:Ex; [|exfalso; apply (Hbefore i); [lia|exact Ex]].
    destruct (make_record_runs loaded fl i st x Hinv Ex)
      as (p & d & s & n & st' & -> & Hinv' & _).
    match goal with |- context [RECORD_FORMAT ?r] => set (row := r) end.
    destruct (IH (i + 1) st' (rs ++ [row]) (out ++ [RECORD_FORMAT row]) Hinv')
      as (new & -> & Hids); try lia; try assumption.
    { intros k Hk. apply Hbefore. lia. }
    exists (row :: new). rewrite <- !app_assoc. cbn [app map].
    split; [reflexivity|].
    replace (Z.to_nat (j - i)) with (S (Z.to_nat (j - (i + 1)))) by lia.
    cbn [ids_from]. rewrite Hids. reflexivity.
Qed.

(** X11. When the dictionary gives at least one word and [float] rejects an
    index [j] of the range while it accepts the indices before it, the run
    stops with [OverflowError] at row [j]: the use line and the statements
    of the indices before [j] have been printed by then, and nothing after. *)
Theorem overflow_stops_the_run (fl : flags) (fs : string -> dict_file)
    (g : rng) (lines : list string) (j : Z) :
  fs (dict_filename fl) = Readable lines ->
  load_lines [] lines <> [] ->
  first_id_inclusive fl <= j < last_id_exclusive fl ->
  float j = None ->
  (forall k, first_id_inclusive fl <= k < j -> float k <> None) ->
  let o := main fl fs g in
  ended o = Raise OverflowError /\
  printed o = use_line fl ++ map RECORD_FORMAT (rows o) /\
  map seller_id (rows o)
    = ids_from (first_id_inclusive fl) (Z.to_nat (j - first_id_inclusive fl)).
Proof.
  intros Hfs Hne Hj Hnone Hbefore. cbv zeta.
  rewrite (main_readable fl fs g lines Hfs).
  destruct (main_loop_overflow (load_lines [] lines) fl j
              (Z.to_nat (last_id_exclusive fl - first_id_inclusive fl))
              (first_id_inclusive fl) _ [] (use_line fl)
              (init_establishes_inv lines g Hne) Hj Hnone Hbefore)
    as (new & -> & Hids); [lia|].
  cbn [rows printed ended app]. auto.
Qed.

(** How the loop of [main] can end on a non-empty pool. *)
Lemma main_loop_ending (loaded : list string) (fl : flags) (fuel : nat) :
  forall i st rs out,
  pool_inv loaded st ->
  (Z.to_nat (last_id_exclusive fl - i) <= fuel)%nat ->
  ended (main_loop fuel fl i st rs out) = Ret tt \/
  (ended (main_loop fuel fl i st rs out) = Raise OverflowError /\
   exists j, i <= j < last_id_exclusive fl /\ float j = None).
Proof.
  induction fuel as [|fuel IH]; intros i st rs out Hinv Hfuel.
  - left. rewrite main_loop_done by lia. reflexivity.
  - destruct (Z.lt_ge_cases i (last_id_exclusive fl)) as [Hlt|Hge];
      [|left; rewrite main_loop_done by lia; reflexivity].
    cbn [main_loop]. destruct (Z.ltb_spec i (last_id_exclusive fl)); [|lia].
    destruct (float i) as [x|] eqn:Ex.
    + destruct (make_record_runs loaded fl i st x Hinv Ex)
        as (p & d & s & n & st' & -> & Hinv' & _).
      match goal with |- context [RECORD_FORMAT ?r] => set (row := r) end.
      destruct (IH (i + 1) st' (rs ++ [row]) (out ++ [RECORD_FORMAT row]) Hinv')
        as [He|(He & j & Hj & Hn)]; [lia | now left |].
      right. split; [exact He|]. exists j. split; [lia | exact Hn].
    + rewrite (make_record_overflow loaded fl i st Hinv Ex). right.
      split; [reflexivity|]. exists i. split; [lia | exact Ex].
Qed.

(** X12. A run ends normally or with one of three exceptions, and never
    with [ZeroDivisionError]: with [IOError] exactly when the dictionary
    cannot be read, with [IndexError] exactly when it is read, gives no word
    and there is a row to build, and with [OverflowError] only when [float]
    rejects an index of the range. *)
Theorem main_endings (fl : flags) (fs : string -> dict_file) (g : rng) :
  (ended (main fl fs g) = Ret tt \/ ended (main fl fs g) = Raise IOError \/
   ended (main fl fs g) = Raise IndexError \/
   ended (main fl fs g) = Raise OverflowError) /\
  (ended (main fl fs g) = Raise IOError <->
   forall lines, fs (dict_filename fl) <> Readable lines) /\
  (ended (main fl fs g) = Raise IndexError <->
   exists lines, fs (dict_filename fl) = Readable lines /\
     load_lines [] lines = [] /\
     first_id_inclusive fl < last_id_exclusive fl) /\
  (ended (main fl fs g) = Raise OverflowError ->
   exists j, first_id_inclusive fl <= j < last_id_exclusive fl /\ float j = None).
Proof.
  destruct (fs (dict_filename fl)) as [|lines|lines] eqn:Hfs.
  - unfold main. rewrite Hfs. cbn [init_data_structure ended].
    split_ands; auto.
    + split; [intros _ lines; discriminate | reflexivity].
    + split; [discriminate | intros (lines & H & _); discriminate].
    + discriminate.
  - rewrite (main_readable fl fs g lines Hfs).
    destruct (load_lines [] lines) as [|w0 ws0] eqn:Hl.
    + destruct (Z.ltb_spec (first_id_inclusive fl) (last_id_exclusive fl))
        as [Hlt|Hge].
      * rewrite main_loop_empty; [|apply shuffle_nil | assumption | lia].
        cbn [ended]. split_ands; auto.
        -- split; [discriminate | intros H'; now destruct (H' lines)].
        -- split; [|reflexivity]. intros _. exists lines. auto.
        -- discriminate.
      * rewrite main_loop_done by assumption. cbn [ended]. split_ands; auto.
        -- split; [discriminate | intros H'; now destruct (H' lines)].
        -- split; [discriminate|]. intros (lines' & E & _ & Hlt). lia.
        -- discriminate.
    + rewrite <- Hl.
      assert (Hne : load_lines [] lines <> []) by (rewrite Hl; discriminate).
      destruct (main_loop_ending (load_lines [] lines) fl
                  (Z.to_nat (last_id_exclusive fl - first_id_inclusive fl))
                  (first_id_inclusive fl) _ [] (use_line fl)
                  (init_establishes_inv lines g Hne))
        as [He|(He & j & Hj & Hn)]; [lia | |]; rewrite He.
      * split_ands; auto.
        -- split; [discriminate | intros H'; now destruct (H' lines)].
        -- split; [discriminate|]. intros (lines' & E & El & _).
           injection E as <-. congruence.
        -- discriminate.
      * split_ands; auto.
        -- split; [discriminate | intros H'; now destruct (H' lines)].
        -- split; [discriminate|]. intros (lines' & E & El & _).
           injection E as <-. congruence.
        -- intros _. now exists j.
  - unfold main. rewrite Hfs. cbn [init_data_structure ended].
    split_ands; auto.
    + split; [intros _ lines'; discriminate | reflexivity].
    + split; [discriminate | intros (lines' & H & _); discriminate].
    + discriminate.
Qed.

End Endings.

(** The third row of the shipped run on the three-word dictionary. *)
Lemma text_columns_fit_witness :
  exists r,
    nth_error (rows (main (R := rev_runtime) shipped_flags
                       (only_file (Readable abc_lines)) 0%nat)) 2 = Some r /\
    47 <= len (part r) <= 48 /\ 2023 <= len (des r) <= 2024 /\
    127 <= len (seller_name r) <= 128 /\ 7167 <= len (notes r) <= 7168.
Proof.
  destruct (nth_error
              (rows (main (R := rev_runtime) shipped_flags
                       (only_file (Readable abc_lines)) 0%nat)) 2)
    as [r|] eqn:E.
  - exists r. split; [reflexivity|].
    apply (text_columns_fit (R := rev_runtime) shipped_flags
             (only_file (Readable abc_lines)) 0%nat r).
    exact (nth_error_In _ _ E).
  - vm_compute in E. discriminate E.
Defined.

Lemma text_columns_are_plain_witness :
  exists r,
    nth_error (rows (main (R := rev_runtime) shipped_flags
                       (only_file (Readable abc_lines)) 0%nat)) 0 = Some r /\
    (text_only (part r) = true /\ quote_free (part r) = true) /\
    (text_only (des r) = true /\ quote_free (des r) = true) /\
    (text_only (seller_name r) = true /\ quote_free (seller_name r) = true) /\
    (text_only (notes r) = true /\ quote_free (notes r) = true).
Proof.
  destruct (nth_error
              (rows (main (R := rev_runtime) shipped_flags
                       (only_file (Readable abc_lines)) 0%nat)) 0)
    as [r|] eqn:E.
  - exists r. split; [reflexivity|].
    apply (text_columns_are_plain (R := rev_runtime) shipped_flags
             (only_file (Readable abc_lines)) 0%nat r).
    exact (nth_error_In _ _ E).
  - vm_compute in E. discriminate E.
Defined.

Lemma price_of_row_witness :
  exists r,
    nth_error (rows (main (R := rev_runtime) shipped_flags
                       (only_file (Readable abc_lines)) 0%nat)) 3 = Some r /\
    fmt_02f (price r) = "3.00".
Proof.
  destruct (nth_error
              (rows (main (R := rev_runtime) shipped_flags
                       (only_file (Readable abc_lines)) 0%nat)) 3)
    as [r|] eqn:E.
  - exists r. split; [reflexivity|].
    apply (price_of_row (R := rev_runtime) shipped_flags
             (only_file (Readable abc_lines)) 0%nat 3%nat r E).
    cbn. lia.
  - vm_compute in E. discriminate E.
Defined.

(** A run whose second index is the first one [float] rejects. *)
Lemma overflow_stops_the_run_witness :
  ended (main (R := double_runtime) overflow_flags
           (only_file (Readable abc_lines)) 0%nat) = Raise OverflowError /\
  map seller_id (rows (main (R := double_runtime) overflow_flags
                         (only_file (Readable abc_lines)) 0%nat))
    = [double_limit - 1].
Proof.
  destruct (overflow_stops_the_run (R := double_runtime) overflow_flags
              (only_file (Readable abc_lines)) 0%nat abc_lines double_limit)
    as (He & _ & Hids).
  - reflexivity.
  - discriminate.
  - cbn [first_id_inclusive last_id_exclusive overflow_flags]. lia.
  - vm_compute. reflexivity.
  - cbn [first_id_inclusive overflow_flags]. intros k Hk.
    replace k with (double_limit - 1) by lia. vm_compute. discriminate.
  - split; [exact He|].
    cbn [first_id_inclusive overflow_flags] in Hids.
    replace (double_limit - (double_limit - 1)) with 1 in Hids by lia.
    exact Hids.
Defined.
